(** * Docker Port Manager backend (backend/server.js): a shallow embedding

    The three port endpoints of the Express server are modelled over a
    point-in-time snapshot of the Docker daemon.  Every dockerode call
    ([docker.listContainers()], [container.inspect()]) is recorded in a
    trace, so that "no runtime interaction" can be stated; a thrown
    exception (an unreachable daemon, a missing container, [Names[0]] of an
    empty array) is the [None] result, caught by the handler's
    [try]/[catch]. *)

From Stdlib Require Import ZArith List String Ascii Bool Lia QArith Qround.
From Stdlib Require Import Sorting.Sorted Sorting.Permutation.
Import ListNotations.
Open Scope string_scope.
Open Scope list_scope.
#[local] Set Warnings "-register-all".

(* ------------------------------------------------------------------ *)
(** ** JavaScript values used by the code *)

(** A JS number produced by [parseInt]: an integer, or [NaN] ([None]). *)
Definition jsnum := option Z.

Definition NaN : jsnum := None.

(** [SameValueZero], the equality of [Set.prototype.has] and [add]:
    [NaN] equals [NaN]. *)
Definition same_value_zero (a b : jsnum) : bool :=
  match a, b with
  | Some x, Some y => Z.eqb x y
  | None, None => true
  | _, _ => false
  end.

(** Strict equality [===] on numbers: [NaN] equals nothing. *)
Definition strict_eq (a b : jsnum) : bool :=
  match a, b with
  | Some x, Some y => Z.eqb x y
  | _, _ => false
  end.

(** *** [parseInt(string)] with no radix (ECMAScript 19.2.5)

    Leading white space is skipped (the ASCII part of StrWhiteSpaceChar:
    TAB, LF, VT, FF, CR and SPACE), one sign is read, a ["0x"]/["0X"]
    prefix selects radix 16, otherwise radix 10; the longest prefix of
    digits of the radix is read, and no digit at all gives [NaN].  A
    negative zero is the integer 0 here. *)

Definition is_js_space (c : ascii) : bool :=
  let n := nat_of_ascii c in
  orb (Nat.eqb n 32) (andb (Nat.leb 9 n) (Nat.leb n 13)).

Fixpoint trim_start (s : string) : string :=
  match s with
  | String c rest => if is_js_space c then trim_start rest else s
  | EmptyString => EmptyString
  end.

(** The value of digit [c] in radix [radix], if it is one. *)
Definition digit_value (radix : Z) (c : ascii) : option Z :=
  let n := Z.of_nat (nat_of_ascii c) in
  let v :=
    (if andb (48 <=? n) (n <=? 57) then Some (n - 48)
     else if andb (97 <=? n) (n <=? 122) then Some (n - 87)
     else if andb (65 <=? n) (n <=? 90) then Some (n - 55)
     else None)%Z in
  match v with
  | Some d => if (d <? radix)%Z then Some d else None
  | None => None
  end.

(** Reads the longest digit prefix; [acc] is [None] until a digit has
    been read. *)
Fixpoint read_digits (radix : Z) (s : string) (acc : option Z) : option Z :=
  match s with
  | String c rest =>
      match digit_value radix c with
      | Some d =>
          read_digits radix rest
            (Some (match acc with Some a => a * radix + d | None => d end)%Z)
      | None => acc
      end
  | EmptyString => acc
  end.

Definition parseInt (input : string) : jsnum :=
  let S0 := trim_start input in
  let '(sign, S1) :=
    match S0 with
    | String "-" rest => ((-1)%Z, rest)
    | String "+" rest => (1%Z, rest)
    | _ => (1%Z, S0)
    end in
  let '(R, S2) :=
    match S1 with
    | String "0" (String "x" rest) => (16%Z, rest)
    | String "0" (String "X" rest) => (16%Z, rest)
    | _ => (10%Z, S1)
    end in
  match read_digits R S2 None with
  | Some m => Some (sign * m)%Z
  | None => NaN
  end.

(** [isNaN(x)] on the result of [parseInt]. *)
Definition isNaN (x : jsnum) : bool :=
  match x with None => true | Some _ => false end.

(** *** [String.prototype.replace('/', '')]: a string pattern replaces its
    FIRST occurrence only, wherever it is. *)
Fixpoint replace_first_slash (s : string) : string :=
  match s with
  | String c rest =>
      if Ascii.eqb c "/"%char then rest else String c (replace_first_slash rest)
  | EmptyString => EmptyString
  end.

(** [containerData.Id.substring(0, 12)]. *)
Definition substring_0_12 (s : string) : string := substring 0 12 s.

(** *** A JS [Set] of numbers, as its elements in insertion order. *)
Definition set_has (s : list jsnum) (x : jsnum) : bool :=
  existsb (same_value_zero x) s.

Definition set_add (s : list jsnum) (x : jsnum) : list jsnum :=
  if set_has s x then s else s ++ [x].

(** *** [array.sort((a, b) => a - b)]

    ECMAScript's SortCompare turns a [NaN] comparator result into [+0].
    With [NaN] among the elements the comparator is not consistent and the
    order the standard allows is implementation-defined; the stable
    insertion sort below (the algorithm engines run on short arrays) is one
    such order, and on integers it is the ascending order. *)
Definition sort_compare (a b : jsnum) : Z :=
  match a, b with
  | Some x, Some y => (x - y)%Z
  | _, _ => 0%Z
  end.

Fixpoint insert_sorted (x : jsnum) (l : list jsnum) : list jsnum :=
  match l with
  | [] => [x]
  | y :: l' => if (sort_compare x y <=? 0)%Z then x :: l
               else y :: insert_sorted x l'
  end.

Fixpoint sort_numbers (l : list jsnum) : list jsnum :=
  match l with
  | [] => []
  | x :: l' => insert_sorted x (sort_numbers l')
  end.

(** *** The JSON sent by [res.json]: [JSON.stringify] writes [NaN] as
    [null] and keeps a property whose value is [null]. *)
Inductive json :=
| JNull
| JBool (b : bool)
| JNum (n : Z)
| JStr (s : string)
| JArr (l : list json)
| JObj (fields : list (string * json)).

Definition json_of_num (x : jsnum) : json :=
  match x with Some n => JNum n | None => JNull end.

(* ------------------------------------------------------------------ *)
(** ** What dockerode returns *)

(** One element of [inspect.NetworkSettings.Ports[containerPort]];
    [HostIp = None] is an absent ([undefined]/[null]) address. *)
Record RawBinding := mkRawBinding {
  HostIp : option string;
  HostPort : string
}.

(** [container.inspect()], reduced to [NetworkSettings.Ports]: [None] is a
    [null] table; the entries are in [Object.entries] order, and an entry
    whose value is [null] has [None]. *)
Record Inspect := mkInspect {
  Ports : option (list (string * option (list RawBinding)))
}.

(** One element of [docker.listContainers()]. *)
Record ContainerData := mkContainerData {
  Id : string;
  Names : list string;
  Image : string;
  Status : string
}.

(** A point-in-time state of the daemon: the running containers in the
    order [listContainers] enumerates them, what [inspect] answers for
    each id (an unknown id makes [inspect] reject), and whether the daemon
    answers at all (an unreachable daemon makes [listContainers] reject). *)
Record Snapshot := mkSnapshot {
  listing : list ContainerData;
  inspections : list (string * Inspect);
  reachable : bool
}.

Fixpoint lookup_inspect (id : string) (db : list (string * Inspect)) : option Inspect :=
  match db with
  | [] => None
  | (k, v) :: db' => if String.eqb k id then Some v else lookup_inspect id db'
  end.

(* ------------------------------------------------------------------ *)
(** ** The runtime monad: reading the daemon, recording each call,
    possibly throwing *)

Inductive call :=
| ListContainersCall
| InspectCall (id : string).

Definition M (A : Type) := Snapshot -> option A * list call.

Definition ret {A} (a : A) : M A := fun _ => (Some a, []).

Definition bind {A B} (m : M A) (k : A -> M B) : M B :=
  fun snap =>
    match m snap with
    | (None, t1) => (None, t1)
    | (Some a, t1) => let '(r, t2) := k a snap in (r, t1 ++ t2)
    end.

Definition throw {A} : M A := fun _ => (None, []).

Notation "x <- m ;; k" := (bind m (fun x => k))
  (at level 61, m at next level, right associativity).

(** [await docker.listContainers()] *)
Definition listContainers : M (list ContainerData) :=
  fun snap => (if reachable snap then Some (listing snap) else None, [ListContainersCall]).

(** [await docker.getContainer(id).inspect()] *)
Definition inspect (id : string) : M Inspect :=
  fun snap => (lookup_inspect id (inspections snap), [InspectCall id]).

(** [containerData.Names[0].replace('/', '')]: [Names[0]] of an empty
    array is [undefined], and calling [replace] on it throws. *)
Definition container_name (cd : ContainerData) : M string :=
  match Names cd with
  | [] => throw
  | n :: _ => ret (replace_first_slash n)
  end.

(* ------------------------------------------------------------------ *)
(** ** [GET /api/ports] *)

Record PortBinding := mkPortBinding {
  containerPort : string;
  hostPort : jsnum;
  hostIp : string
}.

Record ContainerInfo := mkContainerInfo {
  id : string;
  name : string;
  image : string;
  status : string;
  ports : list PortBinding
}.

Record PortsBody := mkPortsBody {
  usedPorts : list jsnum;
  containers : list ContainerInfo
}.

Inductive PortsResponse :=
| PortsOk (body : PortsBody)
| PortsFailed.

(** [binding.HostIp || '0.0.0.0'] *)
Definition host_ip_or_default (ip : option string) : string :=
  match ip with
  | None | Some "" => "0.0.0.0"
  | Some a => a
  end.

(** The bindings pushed for one entry [[containerPort, hostBindings]]
    of [Object.entries(Ports)] (lines 47-57). *)
Definition entry_ports (entry : string * option (list RawBinding)) : list PortBinding :=
  let '(cport, hostBindings) := entry in
  match hostBindings with
  | None => []
  | Some bs =>
      map (fun binding =>
             mkPortBinding cport (parseInt (HostPort binding))
                           (host_ip_or_default (HostIp binding))) bs
  end.

(** The [containerPorts] array built for one container (lines 44-59). *)
Definition container_ports (ins : Inspect) : list PortBinding :=
  match Ports ins with
  | None => []
  | Some table => flat_map entry_ports table
  end.

(** The loop over the containers (lines 40-70): [usedPorts.add] runs
    once per pushed binding, in the same order. *)
Fixpoint collect_inventory (cs : list ContainerData)
    (used : list jsnum) (containerInfo : list ContainerInfo)
    : M (list jsnum * list ContainerInfo) :=
  match cs with
  | [] => ret (used, containerInfo)
  | containerData :: rest =>
      ins <- inspect (Id containerData) ;;
      let containerPorts := container_ports ins in
      let used' := fold_left set_add (map hostPort containerPorts) used in
      if Nat.ltb 0 (List.length containerPorts) then
        nm <- container_name containerData ;;
        collect_inventory rest used'
          (containerInfo ++
             [mkContainerInfo (substring_0_12 (Id containerData)) nm
                (Image containerData) (Status containerData) containerPorts])
      else collect_inventory rest used' containerInfo
  end.

Definition ports_body : M PortsBody :=
  containers <- listContainers ;;
  acc <- collect_inventory containers [] [] ;;
  ret (mkPortsBody (sort_numbers (fst acc)) (snd acc)).

Definition api_ports (snap : Snapshot) : PortsResponse * list call :=
  let '(r, tr) := ports_body snap in
  (match r with Some b => PortsOk b | None => PortsFailed end, tr).

Definition render_binding (b : PortBinding) : json :=
  JObj [("containerPort", JStr (containerPort b)); ("hostPort", json_of_num (hostPort b));
        ("hostIp", JStr (hostIp b))].

Definition render_container (c : ContainerInfo) : json :=
  JObj [("id", JStr (id c)); ("name", JStr (name c)); ("image", JStr (image c));
        ("status", JStr (status c)); ("ports", JArr (map render_binding (ports c)))].

(** The status and the JSON body sent for [GET /api/ports]. *)
Definition render_ports (r : PortsResponse) : Z * json :=
  match r with
  | PortsOk b =>
      (200%Z, JObj [("usedPorts", JArr (map json_of_num (usedPorts b)));
                    ("containers", JArr (map render_container (containers b)))])
  | PortsFailed =>
      (500%Z, JObj [("error", JStr "Failed to get Docker container information")])
  end.

(* ------------------------------------------------------------------ *)
(** ** [GET /api/ports/:port/check] *)

Record UsedBy := mkUsedBy {
  container : string;
  usedByPort : string   (* the [containerPort] property of [usedBy] *)
}.

Record PortCheckResult := mkPortCheckResult {
  port : Z;
  available : bool;
  usedBy : option UsedBy   (* [None] is [null] *)
}.

Inductive CheckResponse :=
| CheckOk (r : PortCheckResult)
| CheckInvalid
| CheckFailed.

(** The innermost loop (lines 102-111): does a binding of this entry
    have [parseInt(binding.HostPort) === portToCheck]? *)
Fixpoint bindings_match (portToCheck : Z) (bs : list RawBinding) : bool :=
  match bs with
  | [] => false
  | binding :: bs' =>
      if strict_eq (parseInt (HostPort binding)) (Some portToCheck) then true
      else bindings_match portToCheck bs'
  end.

(** The loop over [Object.entries(Ports)] (lines 100-114): the
    [containerPort] of the first entry with a matching binding. *)
Fixpoint entries_match (portToCheck : Z)
    (entries : list (string * option (list RawBinding))) : option string :=
  match entries with
  | [] => None
  | (cport, hostBindings) :: entries' =>
      match hostBindings with
      | Some bs => if bindings_match portToCheck bs then Some cport
                   else entries_match portToCheck entries'
      | None => entries_match portToCheck entries'
      end
  end.

Definition inspect_match (portToCheck : Z) (ins : Inspect) : option string :=
  match Ports ins with
  | Some table => entries_match portToCheck table
  | None => None
  end.

(** The loop over the containers (lines 95-117): [usedBy] of the first
    container with a match, after which every loop breaks. *)
Fixpoint scan_containers (portToCheck : Z) (cs : list ContainerData)
    : M (option UsedBy) :=
  match cs with
  | [] => ret None
  | containerData :: rest =>
      ins <- inspect (Id containerData) ;;
      match inspect_match portToCheck ins with
      | Some cport =>
          nm <- container_name containerData ;;
          ret (Some (mkUsedBy nm cport))
      | None => scan_containers portToCheck rest
      end
  end.

(** [isNaN(portToCheck) || portToCheck < 1 || portToCheck > 65535] *)
Definition invalid_port (portToCheck : jsnum) : bool :=
  match portToCheck with
  | None => true
  | Some p => orb (p <? 1)%Z (65535 <? p)%Z
  end.

(** The handler on [req.params.port]. *)
Definition check_body (portParam : string) : M CheckResponse :=
  let portToCheck := parseInt portParam in
  match portToCheck with
  | Some p =>
      if invalid_port portToCheck then ret CheckInvalid
      else
        containers <- listContainers ;;
        usedBy <- scan_containers p containers ;;
        let portInUse := match usedBy with Some _ => true | None => false end in
        ret (CheckOk (mkPortCheckResult p (negb portInUse) usedBy))
  | None => ret CheckInvalid
  end.

Definition api_check (portParam : string) (snap : Snapshot) : CheckResponse * list call :=
  let '(r, tr) := check_body portParam snap in
  (match r with Some resp => resp | None => CheckFailed end, tr).

Definition render_check (r : CheckResponse) : Z * json :=
  match r with
  | CheckOk c =>
      (200%Z, JObj [("port", JNum (port c)); ("available", JBool (available c));
                    ("usedBy", match usedBy c with
                               | Some u => JObj [("container", JStr (container u));
                                                 ("containerPort", JStr (usedByPort u))]
                               | None => JNull
                               end)])
  | CheckInvalid => (400%Z, JObj [("error", JStr "Invalid port number")])
  | CheckFailed => (500%Z, JObj [("error", JStr "Failed to check port availability")])
  end.

(* ------------------------------------------------------------------ *)
(** ** [GET /api/ports/random] *)

(** An Express request: route parameters and query string.  The random
    endpoint's handler never reads it. *)
Record Request := mkRequest {
  params : list (string * string);
  query : list (string * string)
}.

(** The successive results of [Math.random()], read as rationals: the
    [k]-th call (from 0) returns [rnd k]. *)
Definition RandomSource := nat -> Q.

(** The loop over the containers (lines 136-149). *)
Definition add_host_ports (ins : Inspect) (used : list jsnum) : list jsnum :=
  match Ports ins with
  | None => used
  | Some table =>
      fold_left (fun s entry =>
        match snd entry with
        | Some hostBindings =>
            fold_left (fun s' binding => set_add s' (parseInt (HostPort binding)))
                      hostBindings s
        | None => s
        end) table used
  end.

Fixpoint collect_used (cs : list ContainerData) (used : list jsnum) : M (list jsnum) :=
  match cs with
  | [] => ret used
  | containerData :: rest =>
      ins <- inspect (Id containerData) ;;
      collect_used rest (add_host_ports ins used)
  end.

Definition maxAttempts : nat := 100.

(** [Math.floor(Math.random() * (9999 - 3000 + 1)) + 3000] for the call
    number [k]. *)
Definition draw (rnd : RandomSource) (k : nat) : Z :=
  (Qfloor (rnd k * inject_Z (9999 - 3000 + 1)) + 3000)%Z.

(** The [do { ... } while (usedPorts.has(randomPort) && attempts < maxAttempts)]
    loop (lines 156-159), from [attempts] draws done; it returns the last
    [randomPort] and the final [attempts].  [fuel] bounds the recursion:
    from [draw_loop] below it never runs out before [attempts] reaches
    [maxAttempts]. *)
Fixpoint do_while (used : list jsnum) (rnd : RandomSource) (attempts fuel : nat)
    : Z * nat :=
  let randomPort := draw rnd attempts in
  let attempts' := S attempts in
  if andb (set_has used (Some randomPort)) (Nat.ltb attempts' maxAttempts) then
    match fuel with
    | O => (randomPort, attempts')
    | S fuel' => do_while used rnd attempts' fuel'
    end
  else (randomPort, attempts').

Definition draw_loop (used : list jsnum) (rnd : RandomSource) : Z * nat :=
  do_while used rnd 0 maxAttempts.

Inductive RandomResponse :=
| RandomOk (p : Z)
| RandomExhausted
| RandomFailed.

Definition random_body (rnd : RandomSource) : M RandomResponse :=
  containers <- listContainers ;;
  used <- collect_used containers [] ;;
  let '(randomPort, attempts) := draw_loop used rnd in
  if Nat.leb maxAttempts attempts then ret RandomExhausted
  else ret (RandomOk randomPort).

Definition api_random (req : Request) (rnd : RandomSource) (snap : Snapshot)
    : RandomResponse * list call :=
  let '(r, tr) := random_body rnd snap in
  (match r with Some resp => resp | None => RandomFailed end, tr).

Definition render_random (r : RandomResponse) : Z * json :=
  match r with
  | RandomOk p => (200%Z, JObj [("port", JNum p); ("available", JBool true)])
  | RandomExhausted => (500%Z, JObj [("error", JStr "Could not find available port")])
  | RandomFailed => (500%Z, JObj [("error", JStr "Failed to get random port")])
  end.

(* ------------------------------------------------------------------ *)
(** ** Sample daemon states *)

Definition b (port : string) : RawBinding := mkRawBinding (Some "0.0.0.0") port.

Definition spec_snapshot : Snapshot :=
  mkSnapshot
    [mkContainerData "aaaaaaaaaaaaaaaa" ["/web"] "nginx" "Up 3 hours";
     mkContainerData "bbbbbbbbbbbbbbbb" ["/db"] "postgres" "Up 2 hours";
     mkContainerData "cccccccccccccccc" ["/idle"] "redis" "Up 1 hour"]
    [("aaaaaaaaaaaaaaaa", mkInspect (Some [("80/tcp", Some [b "8080"])]));
     ("bbbbbbbbbbbbbbbb", mkInspect (Some [("5432/tcp", Some [b "5432"]);
                                           ("5433/tcp", Some [b "5433"])]));
     ("cccccccccccccccc", mkInspect (Some [("80/tcp", None); ("6379/tcp", Some [])]))]
    true.

Definition empty_request : Request := mkRequest [] [].

(** HostPort strings that do not parse, or parse out of range. *)
Definition nan_snapshot : Snapshot :=
  mkSnapshot
    [mkContainerData "dddddddddddddddd" ["/odd"] "busybox" "Up 5 minutes"]
    [("dddddddddddddddd", mkInspect (Some [("80/tcp", Some [b "abc"]);
                                           ("81/tcp", Some [b "70000"])]))]
    true.

(** A binding with no [HostIp] and one with an empty [HostIp]. *)
Definition default_ip_snapshot : Snapshot :=
  mkSnapshot
    [mkContainerData "gggggggggggggggg" ["/api"] "node" "Up 4 minutes"]
    [("gggggggggggggggg", mkInspect (Some [("3000/tcp", Some [mkRawBinding None "3000";
                                                              mkRawBinding (Some "") "3001"])]))]
    true.

(** Port 3000 taken. *)
Definition busy_3000_snapshot : Snapshot :=
  mkSnapshot
    [mkContainerData "ffffffffffffffff" ["/dev"] "node" "Up 2 minutes"]
    [("ffffffffffffffff", mkInspect (Some [("3000/tcp", Some [b "3000"])]))]
    true.

(** [Math.random()] answering 0 on its first 99 calls (port 3000) and
    [1/7000] on the 100th (port 3001). *)
Definition last_draw_free : RandomSource :=
  fun k => if Nat.ltb k 99 then 0%Q else (1 # 7000)%Q.

Definition zero_random : RandomSource := fun _ => 0%Q.

Definition other_request : Request := mkRequest [("port", "1")] [("min", "1"); ("max", "2")].

(* ------------------------------------------------------------------ *)
(** ** Vocabulary of the properties *)

(** The effective bindings of a listed container in a snapshot: what its
    inspection yields (none when the daemon does not know its id). *)
Definition container_bindings (snap : Snapshot) (cd : ContainerData) : list PortBinding :=
  match lookup_inspect (Id cd) (inspections snap) with
  | Some ins => container_ports ins
  | None => []
  end.

(** Some binding of the container has host port [p]. *)
Definition binds_port (snap : Snapshot) (p : Z) (cd : ContainerData) : Prop :=
  In (Some p) (map hostPort (container_bindings snap cd)).

(** Numeric [<=] between JS numbers: false as soon as one is [NaN]. *)
Definition num_le (a b : jsnum) : Prop :=
  match a, b with
  | Some x, Some y => (x <= y)%Z
  | _, _ => False
  end.

(** The record a listed container contributes to [containers]: one when
    its binding list is non-empty, none otherwise. *)
Definition contributed_record (snap : Snapshot) (cd : ContainerData) : list ContainerInfo :=
  match container_bindings snap cd, Names cd with
  | [], _ => []
  | _, [] => []
  | ps, nm :: _ =>
      [mkContainerInfo (substring_0_12 (Id cd)) (replace_first_slash nm)
         (Image cd) (Status cd) ps]
  end.

(** A container publishes no port: its table is absent, or each entry is
    [null] or an empty list. *)
Definition no_published_ports (ins : Inspect) : Prop :=
  match Ports ins with
  | None => True
  | Some table => forall entry, In entry table -> snd entry = None \/ snd entry = Some []
  end.

(** [s] has no ['/'] character. *)
Fixpoint no_slash (s : string) : Prop :=
  match s with
  | EmptyString => True
  | String c rest => c <> "/"%char /\ no_slash rest
  end.

(* ------------------------------------------------------------------ *)
(** ** The client of the endpoints (src/App.tsx)

    The React front end fetches the three endpoints and renders their
    JSON.  [JSON.parse] of [render_ports] gives back a [PortsBody]: the
    model reads the parsed [usedPorts] and [containers] as the server's
    records, a [None] number now being the [null] the server wrote for
    [NaN]. *)

(** The decimal digit [d] ([0 <= d <= 9]) as a character. *)
Definition digit_char (d : Z) : ascii := ascii_of_nat (48 + Z.to_nat d).

(** The decimal digits of [n >= 0], most significant first, before [acc];
    [fuel] bounds the number of divisions by 10. *)
Fixpoint decimal_digits (fuel : nat) (n : Z) (acc : string) : string :=
  match fuel with
  | O => acc
  | S fuel' =>
      let acc' := String (digit_char (n mod 10)) acc in
      if (n <? 10)%Z then acc' else decimal_digits fuel' (n / 10) acc'
  end.

(** Enough fuel for [decimal_digits] on [a >= 0]: [a] has at most as
    many decimal digits as binary ones, [log2 a + 1]. *)
Definition digits_fuel (a : Z) : nat := S (Z.to_nat (Z.log2 a)).

(** Removes the trailing ['0'] characters. *)
Fixpoint drop_trailing_zeros (s : string) : string :=
  match s with
  | EmptyString => EmptyString
  | String c rest =>
      match drop_trailing_zeros rest with
      | EmptyString => if Ascii.eqb c "0"%char then EmptyString else String c EmptyString
      | r => String c r
      end
  end.

(** Number::toString (ECMAScript 6.1.6.1.20) of an integer [a >= 10^21]:
    its significant digits [s] (the digits without the trailing zeros),
    the first one, then ["."] and the others when there are some, then
    ["e+"] and the decimal exponent.  [a] is read as the exact integer, as
    everywhere in this model: an integer above [2^53] that is not a double
    is not rounded first. *)
Definition exponent_notation (a : Z) : string :=
  let ds := decimal_digits (digits_fuel a) a "" in
  let e := Z.of_nat (String.length ds - 1) in
  let exponent := String.append "e+" (decimal_digits (digits_fuel e) e "") in
  match drop_trailing_zeros ds with
  | String d EmptyString => String d exponent
  | String d rest => String d (String.append "." (String.append rest exponent))
  | EmptyString => exponent
  end.

(** Number::toString of [a >= 0]: plain decimal digits below [10^21],
    exponent notation from there on. *)
Definition nonneg_to_string (a : Z) : string :=
  if (a <? 10 ^ 21)%Z then decimal_digits (digits_fuel a) a ""
  else exponent_notation a.

(** [Number.prototype.toString()] of an integer, as [`${n}`] also writes
    it: ['-'] before the writing of [-n] when negative. *)
Definition number_to_string (n : Z) : string :=
  if (n <? 0)%Z then String "-" (nonneg_to_string (- n))
  else nonneg_to_string n.

(** A string of decimal digits. *)
Fixpoint digit_string (s : string) : Prop :=
  match s with
  | EmptyString => True
  | String c rest => (exists d, (0 <= d < 10)%Z /\ c = digit_char d) /\ digit_string rest
  end.

(** Removes the trailing white space (the same ASCII set as [trim_start]). *)
Fixpoint trim_end (s : string) : string :=
  match s with
  | EmptyString => EmptyString
  | String c rest =>
      match trim_end rest with
      | EmptyString => if is_js_space c then EmptyString else String c EmptyString
      | r => String c r
      end
  end.

(** [String.prototype.trim()] *)
Definition js_trim (s : string) : string := trim_end (trim_start s).

(** [s.includes(search)]: [search] occurs at some position of [s]; the
    empty string occurs everywhere. *)
Fixpoint includes (s search : string) : bool :=
  orb (String.prefix search s)
      (match s with
       | EmptyString => false
       | String _ rest => includes rest search
       end).

(** [String.prototype.toLowerCase()] on the ASCII letters. *)
Definition to_lower_char (c : ascii) : ascii :=
  let n := nat_of_ascii c in
  if andb (Nat.leb 65 n) (Nat.leb n 90) then ascii_of_nat (n + 32) else c.

Fixpoint to_lower (s : string) : string :=
  match s with
  | EmptyString => EmptyString
  | String c rest => String (to_lower_char c) (to_lower rest)
  end.

(** [Array.prototype.filter] and [some] with a callback that may throw
    ([None]); both call it from left to right, and [some] stops at the
    first [true]. *)
Fixpoint js_filter {A} (pred : A -> option bool) (l : list A) : option (list A) :=
  match l with
  | [] => Some []
  | x :: l' =>
      match pred x with
      | None => None
      | Some keep =>
          match js_filter pred l' with
          | None => None
          | Some r => Some (if keep then x :: r else r)
          end
      end
  end.

Fixpoint js_some {A} (pred : A -> option bool) (l : list A) : option bool :=
  match l with
  | [] => Some false
  | x :: l' =>
      match pred x with
      | None => None
      | Some true => Some true
      | Some false => js_some pred l'
      end
  end.

(** [port.toString().includes(searchTerm)] on a number received in JSON:
    [null.toString()] throws a [TypeError]. *)
Definition port_includes (searchTerm : string) (port : jsnum) : option bool :=
  match port with
  | None => None
  | Some n => Some (includes (number_to_string n) searchTerm)
  end.

(** [portData.usedPorts.filter(port => port.toString().includes(searchTerm))] *)
Definition filteredPorts (usedPorts : list jsnum) (searchTerm : string) : option (list jsnum) :=
  js_filter (port_includes searchTerm) usedPorts.

(** The callback of [filteredContainers]: the three operands of [||] are
    evaluated left to right and the first true one ends it. *)
Definition container_matches (searchTerm : string) (c : ContainerInfo) : option bool :=
  if includes (to_lower (name c)) (to_lower searchTerm) then Some true
  else if includes (to_lower (image c)) (to_lower searchTerm) then Some true
  else js_some (fun p => port_includes searchTerm (hostPort p)) (ports c).

(** [portData.containers.filter(container => ...)] *)
Definition filteredContainers (cs : list ContainerInfo) (searchTerm : string)
    : option (list ContainerInfo) :=
  js_filter (container_matches searchTerm) cs.

(** What [checkPort] does: nothing, a local result shown with
    [setPortCheck], or a [fetch] of the URL. *)
Inductive PortCheckAction :=
| NoAction
| SetPortCheck (port : jsnum) (available : bool) (usedBy : UsedBy)
| FetchCheck (url : string).

(** [checkPort] (lines 105-131), before its [fetch] is answered. *)
Definition checkPort (API_BASE searchTerm : string) : PortCheckAction :=
  match js_trim searchTerm with
  | EmptyString => NoAction
  | trimmed =>
      let portNumber := parseInt trimmed in
      match portNumber with
      | Some p =>
          if invalid_port portNumber then
            SetPortCheck portNumber false
              (mkUsedBy "Invalid" "Invalid port number (1-65535)")
          else
            FetchCheck (String.append API_BASE
                          (String.append "/api/ports/"
                             (String.append (number_to_string p) "/check")))
      | None =>
          SetPortCheck portNumber false
            (mkUsedBy "Invalid" "Invalid port number (1-65535)")
      end
  end.

(** The property [key] of a JSON object, [None] when it is absent
    ([undefined]). *)
Definition json_field (j : json) (key : string) : option json :=
  match j with
  | JObj fields =>
      match find (fun kv => String.eqb (fst kv) key) fields with
      | Some kv => Some (snd kv)
      | None => None
      end
  | _ => None
  end.

(** [status.split(' ')[0]]: the text before the first space. *)
Fixpoint first_word (s : string) : string :=
  match s with
  | EmptyString => EmptyString
  | String c rest => if Ascii.eqb c " "%char then EmptyString else String c (first_word rest)
  end.

Inductive BadgeColor := Green | Red | Yellow.

(** The state badge of a container card (lines 386-393), on the parsed
    JSON object [c] of a container. *)
Definition badge_color (c : json) : BadgeColor :=
  match json_field c "state" with
  | Some (JStr "running") => Green
  | Some (JStr "exited") | Some (JStr "stopped") => Red
  | _ => Yellow
  end.

(** [container.state || container.status.split(' ')[0]]: an absent or
    empty [state] falls back to the status ([None]: a value outside the
    declared [string] type of both properties). *)
Definition badge_text (c : json) : option string :=
  match json_field c "state" with
  | Some (JStr s) => if String.eqb s "" then
                       match json_field c "status" with
                       | Some (JStr st) => Some (first_word st)
                       | _ => None
                       end
                     else Some s
  | Some _ => None
  | None =>
      match json_field c "status" with
      | Some (JStr st) => Some (first_word st)
      | _ => None
      end
  end.

(* ------------------------------------------------------------------ *)
(** ** The runtime monad *)

Lemma bind_some {A B} (m : M A) (k : A -> M B) snap r t :
  bind m k snap = (Some r, t) ->
  exists a t1 t2, m snap = (Some a, t1) /\ k a snap = (Some r, t2) /\ t = t1 ++ t2.
Proof.
  unfold bind. destruct (m snap) as [[a|] t1]; [|congruence].
  destruct (k a snap) as [r2 t2] eqn:Hk. intros H; inversion H; subst.
  eauto 7.
Qed.

Lemma bind_none {A B} (m : M A) (k : A -> M B) snap t :
  bind m k snap = (None, t) ->
  (exists t1, m snap = (None, t1)) \/
  (exists a t1 t2, m snap = (Some a, t1) /\ k a snap = (None, t2)).
Proof.
  unfold bind. destruct (m snap) as [[a|] t1]; [|eauto].
  destruct (k a snap) as [r2 t2] eqn:Hk. intros H; inversion H; subst.
  right; eauto.
Qed.

(** Splits [bind m k snap = (Some r, t)] into its two steps. *)
Tactic Notation "inv_bind" hyp(H) "as" ident(a) ident(H1) ident(H2) :=
  let t1 := fresh "tr" in let t2 := fresh "tr" in let E := fresh "Etr" in
  apply bind_some in H; destruct H as (a & t1 & t2 & H1 & H2 & E).

Lemma listContainers_ok snap cs t :
  listContainers snap = (Some cs, t) ->
  cs = listing snap /\ t = [ListContainersCall] /\ reachable snap = true.
Proof.
  unfold listContainers. destruct (reachable snap); intros H; inversion H; auto.
Qed.

(* ------------------------------------------------------------------ *)
(** ** Sets and sorting *)

Lemma same_value_zero_true a b : same_value_zero a b = true <-> a = b.
Proof.
  destruct a, b; simpl; split; intros H; try congruence.
  - apply Z.eqb_eq in H; congruence.
  - inversion H; apply Z.eqb_refl.
Qed.

Lemma set_has_In s x : set_has s x = true <-> In x s.
Proof.
  unfold set_has. rewrite existsb_exists. split.
  - intros (y & Hy & E). apply same_value_zero_true in E. subst; auto.
  - intros H. exists x; split; auto. apply same_value_zero_true; auto.
Qed.

Lemma set_add_In s x y : In y (set_add s x) <-> In y s \/ y = x.
Proof.
  unfold set_add. destruct (set_has s x) eqn:E.
  - apply set_has_In in E. split; [auto|]. intros [H|H]; subst; auto.
  - rewrite in_app_iff; simpl. intuition.
Qed.

Lemma set_add_NoDup s x : NoDup s -> NoDup (set_add s x).
Proof.
  unfold set_add. destruct (set_has s x) eqn:E; auto.
  intros H. apply NoDup_app; auto.
  - constructor; auto; constructor.
  - intros y Hy [Ey|[]]. subst y. apply (proj2 (set_has_In s x)) in Hy. congruence.
Qed.

Lemma fold_set_add_In xs s y :
  In y (fold_left set_add xs s) <-> In y s \/ In y xs.
Proof.
  revert s; induction xs as [|x xs IH]; intros s; simpl.
  - tauto.
  - rewrite IH, set_add_In. intuition.
Qed.

Lemma fold_set_add_NoDup xs s : NoDup s -> NoDup (fold_left set_add xs s).
Proof.
  revert s; induction xs as [|x xs IH]; intros s H; simpl; auto.
  apply IH, set_add_NoDup, H.
Qed.

Lemma insert_sorted_perm x l : Permutation (insert_sorted x l) (x :: l).
Proof.
  induction l as [|y l IH]; simpl; auto.
  destruct (sort_compare x y <=? 0)%Z; auto.
  eapply perm_trans; [apply perm_skip, IH|]. apply perm_swap.
Qed.

Lemma sort_numbers_perm l : Permutation (sort_numbers l) l.
Proof.
  induction l as [|x l IH]; simpl; auto.
  eapply perm_trans; [apply insert_sorted_perm|]. auto.
Qed.

Lemma insert_sorted_sorted x l :
  x <> None -> (forall y, In y l -> y <> None) ->
  Sorted num_le l -> Sorted num_le (insert_sorted x l).
Proof.
  intros Hx. induction l as [|y l IH]; intros Hl Hs; simpl.
  - repeat constructor.
  - destruct x as [x|]; [|congruence].
    destruct y as [y|]; [|exfalso; apply (Hl None); simpl; auto].
    simpl. destruct (x - y <=? 0)%Z eqn:E.
    + constructor; auto. constructor. simpl. lia.
    + apply Sorted_inv in Hs as [Hs Hh].
      constructor.
      * apply IH; auto. intros z Hz; apply Hl; simpl; auto.
      * destruct l as [|z l]; simpl.
        -- constructor. simpl. lia.
        -- destruct z as [z|]; [|exfalso; apply (Hl None); simpl; auto].
           simpl. destruct (x - z <=? 0)%Z; constructor; [simpl; lia|].
           apply HdRel_inv in Hh. exact Hh.
Qed.

Lemma sort_numbers_sorted l :
  (forall y, In y l -> y <> None) -> Sorted num_le (sort_numbers l).
Proof.
  induction l as [|x l IH]; intros Hl; simpl; auto.
  apply insert_sorted_sorted.
  - apply Hl; simpl; auto.
  - intros y Hy. apply Hl. right.
    apply (Permutation_in _ (sort_numbers_perm l)); auto.
  - apply IH. intros y Hy; apply Hl; simpl; auto.
Qed.

(* ------------------------------------------------------------------ *)
(** ** The inventory loop *)

Lemma lookup_of_inspect id snap ins t :
  inspect id snap = (Some ins, t) ->
  lookup_inspect id (inspections snap) = Some ins /\ t = [InspectCall id].
Proof. unfold inspect; intros H; inversion H; auto. Qed.

Lemma container_name_ok cd snap nm t :
  container_name cd snap = (Some nm, t) ->
  exists n rest, Names cd = n :: rest /\ nm = replace_first_slash n /\ t = [].
Proof.
  unfold container_name. destruct (Names cd) as [|n rest]; intros H; inversion H; eauto.
Qed.

Lemma contributed_record_ports snap cd c :
  In c (contributed_record snap cd) -> ports c = container_bindings snap cd.
Proof.
  unfold contributed_record.
  destruct (container_bindings snap cd); [intros []|].
  destruct (Names cd); [intros []|]. intros [<-|[]]; reflexivity.
Qed.

Lemma collect_inventory_ok cs used info snap u info' t :
  collect_inventory cs used info snap = (Some (u, info'), t) ->
  info' = info ++ flat_map (contributed_record snap) cs /\
  (forall x, In x u <-> In x used \/
     exists cd, In cd cs /\ In x (map hostPort (container_bindings snap cd))) /\
  (forall x, In x u <-> In x used \/
     exists c, In c (flat_map (contributed_record snap) cs) /\ In x (map hostPort (ports c))) /\
  (NoDup used -> NoDup u).
Proof.
  revert used info t.
  induction cs as [|cd cs IH]; intros used info t H; simpl in H.
  - inversion H; subst. simpl. rewrite app_nil_r.
    split; [auto|]. split; [|split]; [firstorder|firstorder|auto].
  - inv_bind H as a Hm Hk. apply lookup_of_inspect in Hm as [Hl _].
    assert (Hb : container_bindings snap cd = container_ports a)
      by (unfold container_bindings; rewrite Hl; auto).
    destruct (Nat.ltb 0 (List.length (container_ports a))) eqn:Hlen.
    + inv_bind Hk as nm Hm Hk. apply container_name_ok in Hm as (n & rest & Hn & -> & _).
      apply IH in Hk as (Hi & Hu1 & Hu2 & Hnd).
      assert (Hc : contributed_record snap cd =
                [mkContainerInfo (substring_0_12 (Id cd)) (replace_first_slash n)
                   (Image cd) (Status cd) (container_ports a)]).
      { unfold contributed_record. rewrite Hb, Hn.
        destruct (container_ports a); [discriminate|reflexivity]. }
      simpl. rewrite Hc. split; [rewrite Hi, <- app_assoc; reflexivity|].
      split; [|split].
      * intros x. rewrite Hu1, fold_set_add_In. split.
        -- intros [[H|H]|(cd' & H1 & H2)]; auto.
           ++ right. exists cd; split; [left; auto|]. rewrite Hb; auto.
           ++ right. exists cd'; split; [right|]; auto.
        -- intros [H|(cd' & [<-|H1] & H2)]; auto.
           ++ left; right. rewrite <- Hb; auto.
           ++ right. exists cd'; auto.
      * intros x. rewrite Hu2, fold_set_add_In. simpl. split.
        -- intros [[H|H]|(c & H1 & H2)]; auto.
           ++ right. eexists; split; [left; reflexivity|]. exact H.
           ++ right. exists c; split; [right|]; auto.
        -- intros [H|(c & [<-|H1] & H2)]; auto.
           right. exists c; auto.
      * intros Hd. apply Hnd, fold_set_add_NoDup, Hd.
    + apply Nat.ltb_ge in Hlen.
      destruct (container_ports a) eqn:Ep; [|simpl in Hlen; lia].
      apply IH in Hk as (Hi & Hu1 & Hu2 & Hnd). simpl in Hi, Hu1, Hu2, Hnd.
      assert (Hc : contributed_record snap cd = [])
        by (unfold contributed_record; rewrite Hb; reflexivity).
      simpl. rewrite Hc; simpl. split; [exact Hi|]. split; [|split]; [|exact Hu2|exact Hnd].
      intros x. rewrite Hu1. split.
      * intros [H|(cd' & H1 & H2)]; auto. right; exists cd'; split; [right|]; auto.
      * intros [H|(cd' & [<-|H1] & H2)]; auto.
        -- rewrite Hb in H2; destruct H2.
        -- right; exists cd'; auto.
Qed.

Lemma api_ports_ok snap body tr :
  api_ports snap = (PortsOk body, tr) ->
  containers body = flat_map (contributed_record snap) (listing snap) /\
  NoDup (usedPorts body) /\
  (forall x, In x (usedPorts body) <->
     exists cd, In cd (listing snap) /\ In x (map hostPort (container_bindings snap cd))) /\
  (forall x, In x (usedPorts body) <->
     exists c, In c (containers body) /\ In x (map hostPort (ports c))) /\
  ((forall x, In x (usedPorts body) -> x <> None) -> Sorted num_le (usedPorts body)).
Proof.
  unfold api_ports. destruct (ports_body snap) as [[b|] t] eqn:E; intros H; inversion H; subst.
  unfold ports_body in E. inv_bind E as cs Hm Hk. apply listContainers_ok in Hm as (-> & -> & _).
  inv_bind Hk as a Hc Hk. destruct a as [u info].
  apply collect_inventory_ok in Hc as (Hi & Hu1 & Hu2 & Hnd).
  unfold ret in Hk. injection Hk as Hb. rewrite <- Hb. simpl.
  assert (Hp : forall x, In x (sort_numbers u) <-> In x u).
  { intros x; split; apply Permutation_in; [|apply Permutation_sym]; apply sort_numbers_perm. }
  split; [exact Hi|]. split; [|split; [|split]].
  - eapply Permutation_NoDup; [apply Permutation_sym, sort_numbers_perm|].
    apply Hnd; constructor.
  - intros x; rewrite Hp, Hu1; simpl; intuition.
  - intros x; rewrite Hp, Hu2, Hi; simpl; intuition.
  - intros Hs; apply sort_numbers_sorted. intros x Hx; apply Hs, Hp, Hx.
Qed.

Lemma collect_inventory_fail cs used info snap t :
  collect_inventory cs used info snap = (None, t) ->
  exists cd, In cd cs /\
    (lookup_inspect (Id cd) (inspections snap) = None \/
     (container_bindings snap cd <> [] /\ Names cd = [])).
Proof.
  revert used info t.
  induction cs as [|cd cs IH]; intros used info t H; simpl in H.
  - inversion H.
  - apply bind_none in H as [(t1 & Hm)|(ins & t1 & t2 & Hm & Hk)].
    + unfold inspect in Hm. inversion Hm. exists cd; simpl; auto.
    + apply lookup_of_inspect in Hm as [Hl _].
      assert (Hb : container_bindings snap cd = container_ports ins)
        by (unfold container_bindings; rewrite Hl; auto).
      destruct (Nat.ltb 0 (List.length (container_ports ins))) eqn:Hlen.
      * apply bind_none in Hk as [(t3 & Hn)|(nm & t3 & t4 & Hn & Hk)].
        -- exists cd; split; [left; auto|]. right. unfold container_name in Hn.
           destruct (Names cd); [|discriminate]. split; [|auto].
           rewrite Hb. intros E; rewrite E in Hlen; discriminate.
        -- apply IH in Hk as (cd' & H1 & H2). exists cd'; simpl; auto.
      * apply IH in Hk as (cd' & H1 & H2). exists cd'; simpl; auto.
Qed.

Lemma container_ports_parse ins pb :
  In pb (container_ports ins) ->
  exists table cport bs rb,
    Ports ins = Some table /\ In (cport, Some bs) table /\ In rb bs /\
    pb = mkPortBinding cport (parseInt (HostPort rb)) (host_ip_or_default (HostIp rb)).
Proof.
  unfold container_ports. destruct (Ports ins) as [table|]; [|intros []].
  intros H. apply in_flat_map in H as ([cport [bs|]] & Ht & Hp); [|destruct Hp].
  simpl in Hp. apply in_map_iff in Hp as (rb & <- & Hrb).
  exists table, cport, bs, rb; auto.
Qed.

Lemma no_published_ports_empty ins :
  no_published_ports ins -> container_ports ins = [].
Proof.
  unfold no_published_ports, container_ports. destruct (Ports ins) as [table|]; auto.
  induction table as [|[cport hb] table IH]; intros H; simpl; auto.
  rewrite IH by (intros e He; apply H; simpl; auto).
  assert (Hh : hb = None \/ hb = Some []) by (apply (H (cport, hb)); simpl; auto).
  destruct Hh as [-> | ->]; reflexivity.
Qed.

(* ------------------------------------------------------------------ *)
(** ** The availability scan *)

Lemma strict_eq_true x p : strict_eq x (Some p) = true <-> x = Some p.
Proof.
  destruct x; simpl; split; intros H; try discriminate.
  - apply Z.eqb_eq in H; congruence.
  - inversion H; apply Z.eqb_refl.
Qed.

Lemma entry_ports_hostPorts cport bs :
  map hostPort (entry_ports (cport, Some bs)) = map (fun rb => parseInt (HostPort rb)) bs.
Proof. simpl. rewrite map_map. reflexivity. Qed.

Lemma bindings_match_false p bs :
  bindings_match p bs = false -> ~ In (Some p) (map (fun rb => parseInt (HostPort rb)) bs).
Proof.
  induction bs as [|rb bs IH]; simpl; auto.
  destruct (strict_eq (parseInt (HostPort rb)) (Some p)) eqn:E; [discriminate|].
  intros H [Hx|Hx]; [|exact (IH H Hx)].
  rewrite Hx in E. simpl in E. rewrite Z.eqb_refl in E. discriminate.
Qed.

Lemma bindings_match_true p bs :
  bindings_match p bs = true ->
  exists bs1 rb bs2, bs = bs1 ++ rb :: bs2 /\
    ~ In (Some p) (map (fun rb => parseInt (HostPort rb)) bs1) /\
    parseInt (HostPort rb) = Some p.
Proof.
  induction bs as [|rb bs IH]; simpl; [discriminate|].
  destruct (strict_eq (parseInt (HostPort rb)) (Some p)) eqn:E; intros H.
  - apply strict_eq_true in E. exists [], rb, bs; simpl; auto.
  - apply IH in H as (bs1 & rb' & bs2 & -> & Hn & Hp).
    exists (rb :: bs1), rb', bs2; split; [reflexivity|]; split; [|exact Hp].
    simpl. intros [Hx|Hx]; [|exact (Hn Hx)].
    rewrite Hx in E. simpl in E. rewrite Z.eqb_refl in E. discriminate.
Qed.

Lemma entries_match_none p table :
  entries_match p table = None -> ~ In (Some p) (map hostPort (flat_map entry_ports table)).
Proof.
  induction table as [|[cport [bs|]] table IH]; simpl; auto.
  - destruct (bindings_match p bs) eqn:E; [discriminate|]. intros H.
    rewrite map_app, in_app_iff, map_map. intros [Hx|Hx]; [|exact (IH H Hx)].
    exact (bindings_match_false p bs E Hx).
Qed.

Lemma entries_match_some p table cp :
  entries_match p table = Some cp ->
  exists bpre bnd bpost,
    flat_map entry_ports table = bpre ++ bnd :: bpost /\
    ~ In (Some p) (map hostPort bpre) /\ hostPort bnd = Some p /\ containerPort bnd = cp.
Proof.
  induction table as [|[cport [bs|]] table IH]; simpl; [discriminate| |].
  - destruct (bindings_match p bs) eqn:E; intros H.
    + injection H as <-. apply bindings_match_true in E as (bs1 & rb & bs2 & -> & Hn & Hp).
      set (f := fun binding => mkPortBinding cport (parseInt (HostPort binding))
                                 (host_ip_or_default (HostIp binding))).
      exists (map f bs1), (f rb), (map f bs2 ++ flat_map entry_ports table).
      split; [rewrite map_app, <- app_assoc; reflexivity|].
      split; [|split; reflexivity || (simpl; exact Hp)].
      unfold f; rewrite map_map; exact Hn.
    + apply IH in H as (bpre & bnd & bpost & -> & Hn & Hp & Hc).
      exists (map (fun binding => mkPortBinding cport (parseInt (HostPort binding))
                                 (host_ip_or_default (HostIp binding))) bs ++ bpre), bnd, bpost.
      split; [rewrite <- app_assoc; reflexivity|]. split; [|auto].
      rewrite map_app, in_app_iff, map_map. intros [Hx|Hx]; [|exact (Hn Hx)].
      exact (bindings_match_false p bs E Hx).
  - exact IH.
Qed.

Lemma inspect_match_none p ins :
  inspect_match p ins = None -> ~ In (Some p) (map hostPort (container_ports ins)).
Proof.
  unfold inspect_match, container_ports. destruct (Ports ins); [apply entries_match_none|].
  intros _ [].
Qed.

Lemma inspect_match_some p ins cp :
  inspect_match p ins = Some cp ->
  exists bpre bnd bpost,
    container_ports ins = bpre ++ bnd :: bpost /\
    ~ In (Some p) (map hostPort bpre) /\ hostPort bnd = Some p /\ containerPort bnd = cp.
Proof.
  unfold inspect_match, container_ports. destruct (Ports ins); [apply entries_match_some|].
  discriminate.
Qed.

Lemma scan_containers_ok p cs snap u t :
  scan_containers p cs snap = (Some u, t) ->
  (u = None -> forall cd, In cd cs -> ~ binds_port snap p cd) /\
  (forall v, u = Some v ->
     exists pre cd post n rest bpre bnd bpost,
       cs = pre ++ cd :: post /\
       (forall cd', In cd' pre -> ~ binds_port snap p cd') /\
       Names cd = n :: rest /\
       container_bindings snap cd = bpre ++ bnd :: bpost /\
       ~ In (Some p) (map hostPort bpre) /\ hostPort bnd = Some p /\
       v = mkUsedBy (replace_first_slash n) (containerPort bnd)).
Proof.
  revert t. induction cs as [|cd cs IH]; intros t H; simpl in H.
  - inversion H; subst. split; [intros _ _ []|discriminate].
  - inv_bind H as ins Hm Hk. apply lookup_of_inspect in Hm as [Hl _].
    assert (Hb : container_bindings snap cd = container_ports ins)
      by (unfold container_bindings; rewrite Hl; auto).
    destruct (inspect_match p ins) as [cp|] eqn:Em.
    + inv_bind Hk as nm Hn Hk. apply container_name_ok in Hn as (n & rest & Hn & -> & _).
      injection Hk as <-. split; [discriminate|]. intros v Hv; injection Hv as <-.
      apply inspect_match_some in Em as (bpre & bnd & bpost & Hc & Hnot & Hp & Hcp).
      exists [], cd, cs, n, rest, bpre, bnd, bpost.
      split; [reflexivity|]. split; [intros _ []|]. rewrite Hb, Hcp. auto 6.
    + apply inspect_match_none in Em.
      apply IH in Hk as [H1 H2]. split.
      * intros Hu cd' [<-|Hin]; [|exact (H1 Hu cd' Hin)].
        unfold binds_port. rewrite Hb. exact Em.
      * intros v Hv. destruct (H2 v Hv) as (pre & c & post & Hrest).
        exists (cd :: pre), c, post. destruct Hrest as (n & rest & bpre & bnd & bpost & Hs & Hpre & R).
        exists n, rest, bpre, bnd, bpost. split; [simpl; congruence|]. split; [|exact R].
        intros cd' [<-|Hin]; [|exact (Hpre cd' Hin)].
        unfold binds_port. rewrite Hb. exact Em.
Qed.

Lemma api_check_ok s snap r tr :
  api_check s snap = (CheckOk r, tr) ->
  parseInt s = Some (port r) /\ (1 <= port r <= 65535)%Z /\
  available r = negb (match usedBy r with Some _ => true | None => false end) /\
  (usedBy r = None -> forall cd, In cd (listing snap) -> ~ binds_port snap (port r) cd) /\
  (forall v, usedBy r = Some v ->
     exists pre cd post n rest bpre bnd bpost,
       listing snap = pre ++ cd :: post /\
       (forall cd', In cd' pre -> ~ binds_port snap (port r) cd') /\
       Names cd = n :: rest /\
       container_bindings snap cd = bpre ++ bnd :: bpost /\
       ~ In (Some (port r)) (map hostPort bpre) /\ hostPort bnd = Some (port r) /\
       v = mkUsedBy (replace_first_slash n) (containerPort bnd)).
Proof.
  unfold api_check, check_body.
  destruct (parseInt s) as [p|] eqn:Ep; [|intros H; inversion H].
  destruct (invalid_port (Some p)) eqn:Ev.
  - intros H; inversion H.
  - destruct (bind _ _ snap) as [[resp|] t] eqn:E; intros H; inversion H; subst resp tr.
    inv_bind E as cs Hm Hk. apply listContainers_ok in Hm as (-> & _ & _).
    inv_bind Hk as u Hs Hk. injection Hk as <-. simpl.
    apply scan_containers_ok in Hs as [H1 H2].
    simpl in Ev. apply orb_false_iff in Ev as [E1 E2].
    apply Z.ltb_ge in E1, E2. auto 6.
Qed.

(* ------------------------------------------------------------------ *)
(** ** The random generator *)

Lemma fold_add_bindings_In bs s x :
  In x (fold_left (fun s' binding => set_add s' (parseInt (HostPort binding))) bs s) <->
  In x s \/ In x (map (fun rb => parseInt (HostPort rb)) bs).
Proof.
  revert s; induction bs as [|rb bs IH]; intros s; simpl; [tauto|].
  rewrite IH, set_add_In. intuition.
Qed.

Lemma add_host_ports_In ins used x :
  In x (add_host_ports ins used) <-> In x used \/ In x (map hostPort (container_ports ins)).
Proof.
  unfold add_host_ports, container_ports. destruct (Ports ins) as [table|]; [|simpl; tauto].
  revert used; induction table as [|[cport hb] table IH]; intros used; simpl; [tauto|].
  rewrite IH, map_app, in_app_iff. destruct hb as [bs|]; simpl; [|tauto].
  rewrite fold_add_bindings_In, map_map. simpl. tauto.
Qed.

Lemma collect_used_ok cs used snap u t :
  collect_used cs used snap = (Some u, t) ->
  forall x, In x u <-> In x used \/
    exists cd, In cd cs /\ In x (map hostPort (container_bindings snap cd)).
Proof.
  revert used t; induction cs as [|cd cs IH]; intros used t H; simpl in H.
  - inversion H; subst. firstorder.
  - inv_bind H as ins Hm Hk. apply lookup_of_inspect in Hm as [Hl _].
    assert (Hb : container_bindings snap cd = container_ports ins)
      by (unfold container_bindings; rewrite Hl; auto).
    intros x. rewrite (IH _ _ Hk x), add_host_ports_In, <- Hb. split.
    + intros [[H|H]|(cd' & H1 & H2)]; auto.
      * right; exists cd; simpl; auto.
      * right; exists cd'; simpl; auto.
    + intros [H|(cd' & [<-|H1] & H2)]; auto. right; exists cd'; auto.
Qed.

Lemma do_while_ok used rnd a fuel rp a' :
  (a + fuel = maxAttempts)%nat ->
  do_while used rnd a fuel = (rp, a') ->
  ((a' < maxAttempts)%nat -> set_has used (Some rp) = false) /\
  exists k, rp = draw rnd k.
Proof.
  revert a; induction fuel as [|fuel IH]; intros a Ha H; simpl in H.
  - destruct (andb _ (Nat.ltb (S a) maxAttempts)) eqn:E.
    + apply andb_true_iff in E as [_ E]. apply Nat.ltb_lt in E. lia.
    + injection H as <- <-. split; [|eauto].
      intros Hl. apply andb_false_iff in E as [E|E]; auto.
      apply Nat.ltb_ge in E. lia.
  - destruct (andb _ (Nat.ltb (S a) maxAttempts)) eqn:E.
    + apply (IH (S a)); [lia|exact H].
    + injection H as <- <-. split; [|eauto].
      intros Hl. apply andb_false_iff in E as [E|E]; auto.
      apply Nat.ltb_ge in E. lia.
Qed.

Lemma do_while_agree used rnd1 rnd2 a fuel :
  (forall k, (k < maxAttempts)%nat -> rnd1 k = rnd2 k) ->
  (a < maxAttempts)%nat ->
  do_while used rnd1 a fuel = do_while used rnd2 a fuel.
Proof.
  intros Hr. revert a; induction fuel as [|fuel IH]; intros a Ha; simpl;
    unfold draw; rewrite (Hr a Ha); fold (draw rnd2 a);
    destruct (andb _ (Nat.ltb (S a) maxAttempts)) eqn:E; auto.
  apply IH. apply andb_true_iff in E as [_ E]. apply Nat.ltb_lt in E. exact E.
Qed.

Lemma draw_range rnd k :
  (0 <= rnd k < 1)%Q -> (3000 <= draw rnd k <= 9999)%Z.
Proof.
  intros [H0 H1]. unfold draw.
  set (x := (rnd k * inject_Z (9999 - 3000 + 1))%Q).
  assert (Hx0 : (0 <= x)%Q) by (apply Qmult_le_0_compat; [exact H0|discriminate]).
  assert (Hx1 : (x < inject_Z 7000)%Q).
  { unfold x. setoid_replace (inject_Z 7000) with (1 * inject_Z 7000)%Q at 2
      by (rewrite Qmult_1_l; reflexivity).
    apply Qmult_lt_r; [reflexivity|exact H1]. }
  pose proof (Qfloor_le x) as Hle. pose proof (Qlt_floor x) as Hlt.
  assert (A : (0 < Qfloor x + 1)%Z).
  { rewrite Zlt_Qlt. eapply Qle_lt_trans; [exact Hx0|exact Hlt]. }
  assert (B : (Qfloor x < 7000)%Z).
  { rewrite Zlt_Qlt. eapply Qle_lt_trans; [exact Hle|exact Hx1]. }
  lia.
Qed.

Lemma api_random_ok req rnd snap p tr :
  api_random req rnd snap = (RandomOk p, tr) ->
  (forall cd, In cd (listing snap) -> ~ binds_port snap p cd) /\
  exists k, p = draw rnd k.
Proof.
  unfold api_random, random_body.
  destruct (bind _ _ snap) as [[resp|] t] eqn:E; intros H; inversion H; subst resp tr.
  inv_bind E as cs Hm Hk. apply listContainers_ok in Hm as (-> & _ & _).
  inv_bind Hk as used Hu Hk.
  destruct (draw_loop used rnd) as [rp att] eqn:Ed.
  destruct (Nat.leb maxAttempts att) eqn:Ea; injection Hk as Hk; [discriminate|].
  subst. apply Nat.leb_gt in Ea.
  apply do_while_ok in Ed as [Hf Hk]; [|reflexivity].
  split; [|exact Hk].
  intros cd Hcd Hb. specialize (Hf Ea).
  assert (Hin : In (Some p) used).
  { apply (collect_used_ok _ _ _ _ _ Hu). right. exists cd; auto. }
  apply set_has_In in Hin. congruence.
Qed.

Lemma sorted_num_le_no_nan a c l :
  Sorted num_le (a :: c :: l) -> forall x, In x (a :: c :: l) -> x <> None.
Proof.
  revert a c; induction l as [|d l IH]; intros a c Hs x Hx;
    apply Sorted_inv in Hs as [Hs Hh]; apply HdRel_inv in Hh;
    destruct a as [a|], c as [c|]; simpl in Hh; try contradiction.
  - destruct Hx as [<-|[<-|[]]]; discriminate.
  - destruct Hx as [<-|Hx]; [discriminate|]. exact (IH _ _ Hs x Hx).
Qed.

(* ------------------------------------------------------------------ *)
(** ** Numbers written in decimal and read back *)

Lemma digit_char_value d : (0 <= d < 10)%Z -> digit_value 10 (digit_char d) = Some d.
Proof.
  intros H. assert (E : (d = 0 \/ d = 1 \/ d = 2 \/ d = 3 \/ d = 4 \/ d = 5 \/
                        d = 6 \/ d = 7 \/ d = 8 \/ d = 9)%Z) by lia.
  repeat destruct E as [-> | E]; subst; reflexivity.
Qed.

Lemma decimal_digits_S fuel n acc :
  decimal_digits (S fuel) n acc =
  if (n <? 10)%Z then String (digit_char (n mod 10)) acc
  else decimal_digits fuel (n / 10) (String (digit_char (n mod 10)) acc).
Proof. reflexivity. Qed.

Lemma decimal_digits_read fuel n acc :
  (0 <= n)%Z -> (n < 10 ^ Z.of_nat (S fuel))%Z ->
  read_digits 10 (decimal_digits (S fuel) n acc) None = read_digits 10 acc (Some n).
Proof.
  revert n acc; induction fuel as [|fuel IH]; intros n acc Hn Hf;
    rewrite decimal_digits_S; assert (Hm : (0 <= n mod 10 < 10)%Z) by (apply Z.mod_pos_bound; lia);
    destruct (n <? 10)%Z eqn:E.
  - apply Z.ltb_lt in E. cbn [read_digits]. rewrite digit_char_value by exact Hm.
    rewrite Z.mod_small by lia. reflexivity.
  - apply Z.ltb_ge in E. simpl in Hf. lia.
  - apply Z.ltb_lt in E. cbn [read_digits]. rewrite digit_char_value by exact Hm.
    rewrite Z.mod_small by lia. reflexivity.
  - apply Z.ltb_ge in E. rewrite IH.
    + cbn [read_digits]. rewrite digit_char_value by exact Hm.
      f_equal. f_equal. rewrite (Z.div_mod n 10) at 3 by lia. lia.
    + apply Z.div_pos; lia.
    + apply Z.div_lt_upper_bound; [lia|].
      rewrite Nat2Z.inj_succ, Z.pow_succ_r in Hf by lia. exact Hf.
Qed.

Lemma digits_fuel_bound a :
  (0 <= a)%Z -> (a < 10 ^ Z.of_nat (digits_fuel a))%Z.
Proof.
  intros Ha. unfold digits_fuel. rewrite Nat2Z.inj_succ, Z2Nat.id by apply Z.log2_nonneg.
  destruct (Z.eq_dec a 0) as [->|Hn]; [simpl; lia|].
  apply Z.lt_le_trans with (2 ^ Z.succ (Z.log2 a))%Z.
  - apply Z.log2_spec; lia.
  - apply Z.pow_le_mono_l. lia.
Qed.

Lemma decimal_digits_digit_string fuel n acc :
  (0 <= n)%Z -> digit_string acc -> digit_string (decimal_digits fuel n acc).
Proof.
  revert n acc; induction fuel as [|fuel IH]; intros n acc Hn Ha; cbn [decimal_digits]; auto.
  assert (Hm : (0 <= n mod 10 < 10)%Z) by (apply Z.mod_pos_bound; lia).
  destruct (n <? 10)%Z.
  - cbn [digit_string]. eauto.
  - apply IH; [apply Z.div_pos; lia|]. cbn [digit_string]. eauto.
Qed.

Lemma decimal_digits_nonempty fuel n acc :
  decimal_digits (S fuel) n acc <> EmptyString.
Proof.
  revert n acc; induction fuel as [|fuel IH]; intros n acc; cbn [decimal_digits];
    destruct (n <? 10)%Z; try discriminate.
  apply IH.
Qed.

Lemma is_js_space_digit d : (0 <= d < 10)%Z -> is_js_space (digit_char d) = false.
Proof.
  intros H. assert (E : (d = 0 \/ d = 1 \/ d = 2 \/ d = 3 \/ d = 4 \/ d = 5 \/
                        d = 6 \/ d = 7 \/ d = 8 \/ d = 9)%Z) by lia.
  repeat destruct E as [-> | E]; subst; reflexivity.
Qed.

Lemma digit_char_cases d :
  (0 <= d < 10)%Z ->
  In (digit_char d) ["0"; "1"; "2"; "3"; "4"; "5"; "6"; "7"; "8"; "9"]%char.
Proof.
  intros H. assert (E : (d = 0 \/ d = 1 \/ d = 2 \/ d = 3 \/ d = 4 \/ d = 5 \/
                        d = 6 \/ d = 7 \/ d = 8 \/ d = 9)%Z) by lia.
  repeat destruct E as [-> | E]; subst; cbv; tauto.
Qed.

Ltac digit_cases H :=
  apply digit_char_cases in H;
  repeat (destruct H as [<- | H]; [|]); [..|destruct H].

(** [parseInt] reads a non-empty string of decimal digits in radix 10:
    no white space, sign or ["0x"] prefix can start it. *)
Lemma parseInt_digit_string s :
  digit_string s -> s <> EmptyString -> parseInt s = read_digits 10 s None.
Proof.
  destruct s as [|c r]; [congruence|]. intros [(d & Hd & ->) Hr] _.
  destruct r as [|c' r'].
  - digit_cases Hd; reflexivity.
  - destruct Hr as [(d' & Hd' & ->) _].
    digit_cases Hd; digit_cases Hd'; unfold parseInt; cbv -[read_digits];
      destruct (read_digits _ _ _) as [[|m|m]|]; reflexivity.
Qed.

(** A negative number is written ["-"] and digits, which [parseInt]
    reads with the sign. *)
Lemma parseInt_minus_digit_string s :
  digit_string s -> s <> EmptyString ->
  parseInt (String "-" s) = match read_digits 10 s None with
                            | Some m => Some (- m)%Z
                            | None => None
                            end.
Proof.
  destruct s as [|c r]; [congruence|]. intros [(d & Hd & ->) Hr] _.
  destruct r as [|c' r'].
  - digit_cases Hd; reflexivity.
  - destruct Hr as [(d' & Hd' & ->) _].
    digit_cases Hd; digit_cases Hd'; unfold parseInt; cbv -[read_digits];
      destruct (read_digits _ _ _) as [[|m|m]|]; reflexivity.
Qed.

(** Below [10^21] in absolute value, [parseInt] reads back what
    [toString] writes. *)
Lemma parseInt_number_to_string n :
  (- 10 ^ 21 < n < 10 ^ 21)%Z -> parseInt (number_to_string n) = Some n.
Proof.
  intros Hb. unfold number_to_string, nonneg_to_string. destruct (n <? 0)%Z eqn:E.
  - apply Z.ltb_lt in E.
    replace (- n <? 10 ^ 21)%Z with true by (symmetry; apply Z.ltb_lt; lia).
    rewrite parseInt_minus_digit_string.
    + unfold digits_fuel. rewrite decimal_digits_read by (try apply digits_fuel_bound; lia).
      cbn [read_digits]. f_equal. lia.
    + apply decimal_digits_digit_string; cbn [digit_string]; auto. lia.
    + apply decimal_digits_nonempty.
  - apply Z.ltb_ge in E.
    replace (n <? 10 ^ 21)%Z with true by (symmetry; apply Z.ltb_lt; lia).
    rewrite parseInt_digit_string.
    + unfold digits_fuel. apply decimal_digits_read; [lia|apply digits_fuel_bound; lia].
    + apply decimal_digits_digit_string; cbn [digit_string]; auto.
    + apply decimal_digits_nonempty.
Qed.

(* ------------------------------------------------------------------ *)
(** ** Validation of the check endpoint *)

Lemma api_check_invalid s snap :
  invalid_port (parseInt s) = true -> api_check s snap = (CheckInvalid, []).
Proof.
  unfold api_check, check_body. destruct (parseInt s) as [p|]; [|reflexivity].
  intros ->. reflexivity.
Qed.

Lemma api_check_not_invalid s snap :
  invalid_port (parseInt s) = false -> fst (api_check s snap) <> CheckInvalid.
Proof.
  unfold api_check, check_body. destruct (parseInt s) as [p|]; [|discriminate].
  intros ->.
  destruct (bind _ _ snap) as [[resp|] t] eqn:E; simpl; [|discriminate].
  inv_bind E as cs Hm Hk. inv_bind Hk as u Hs Hk. injection Hk as <-. discriminate.
Qed.

(* ------------------------------------------------------------------ *)
(** ** The client's filters and badge *)

Lemma includes_empty s : includes s "" = true.
Proof. destruct s; reflexivity. Qed.

Lemma filteredPorts_null ps s : In None ps -> filteredPorts ps s = None.
Proof.
  unfold filteredPorts. induction ps as [|x ps IH]; simpl; [intros []|].
  intros [->|H]; [reflexivity|].
  destruct (port_includes s x); [|reflexivity]. rewrite IH by exact H. reflexivity.
Qed.

Lemma js_filter_all {A} (pred : A -> option bool) l :
  (forall x, In x l -> pred x = Some true) -> js_filter pred l = Some l.
Proof.
  induction l as [|x l IH]; simpl; intros H; [reflexivity|].
  rewrite H by auto. rewrite IH by auto. reflexivity.
Qed.

Lemma json_field_render_container c :
  json_field (render_container c) "state" = None /\
  json_field (render_container c) "status" = Some (JStr (status c)).
Proof. split; reflexivity. Qed.


(* ------------------------------------------------------------------ *)
(** ** Calls made and failures *)

Lemma bind_fst {A B} (m : M A) (k : A -> M B) snap :
  fst (bind m k snap) = match m snap with
                        | (Some a, _) => fst (k a snap)
                        | (None, _) => None
                        end.
Proof.
  unfold bind. destruct (m snap) as [[a|] t]; [destruct (k a snap)|]; reflexivity.
Qed.

Lemma inspect_fst id snap : fst (inspect id snap) = lookup_inspect id (inspections snap).
Proof. reflexivity. Qed.

Lemma collect_inventory_trace cs used info snap r t :
  collect_inventory cs used info snap = (Some r, t) ->
  t = map (fun cd => InspectCall (Id cd)) cs.
Proof.
  revert used info t; induction cs as [|cd cs IH]; intros used info t H; simpl in H.
  - inversion H; reflexivity.
  - inv_bind H as ins Hm Hk. apply lookup_of_inspect in Hm as [_ ->]. subst t. simpl.
    destruct (Nat.ltb 0 _).
    + inv_bind Hk as nm Hn Hk. apply container_name_ok in Hn as (n & rest & _ & _ & ->).
      subst. simpl. f_equal. eapply IH; eauto.
    + f_equal. eapply IH; eauto.
Qed.

Lemma collect_inventory_fail_of cs used info snap cd :
  In cd cs ->
  lookup_inspect (Id cd) (inspections snap) = None \/
    (container_bindings snap cd <> [] /\ Names cd = []) ->
  fst (collect_inventory cs used info snap) = None.
Proof.
  revert used info; induction cs as [|cd0 cs IH]; intros used info Hin Hcd; [destruct Hin|].
  simpl. rewrite bind_fst. unfold inspect at 1.
  destruct (lookup_inspect (Id cd0) (inspections snap)) as [ins|] eqn:El; [|reflexivity].
  destruct Hin as [<-|Hin].
  - destruct Hcd as [Hcd|[Hb Hn]]; [congruence|].
    unfold container_bindings in Hb. rewrite El in Hb.
    destruct (container_ports ins) as [|pb pbs]; [congruence|]. simpl.
    rewrite bind_fst. unfold container_name. rewrite Hn. reflexivity.
  - destruct (Nat.ltb 0 _); [|apply IH; auto].
    rewrite bind_fst. unfold container_name.
    destruct (Names cd0); [reflexivity|]. apply IH; auto.
Qed.

Lemma ports_body_fail_iff snap :
  fst (ports_body snap) = None <->
  reachable snap = false \/
  exists cd, In cd (listing snap) /\
    (lookup_inspect (Id cd) (inspections snap) = None \/
     (container_bindings snap cd <> [] /\ Names cd = [])).
Proof.
  unfold ports_body. rewrite bind_fst. unfold listContainers at 1.
  destruct (reachable snap) eqn:Er; [|split; [auto|reflexivity]].
  rewrite bind_fst. split.
  - destruct (collect_inventory (listing snap) [] [] snap) as [[a|] t] eqn:E;
      [discriminate|]. intros _. right. eapply collect_inventory_fail; exact E.
  - intros [H|(cd & Hin & Hcd)]; [discriminate|].
    pose proof (collect_inventory_fail_of (listing snap) [] [] snap cd Hin Hcd) as H.
    destruct (collect_inventory (listing snap) [] [] snap) as [[a|] t]; [discriminate|].
    reflexivity.
Qed.

Lemma collect_used_trace cs used snap u t :
  collect_used cs used snap = (Some u, t) -> t = map (fun cd => InspectCall (Id cd)) cs.
Proof.
  revert used t; induction cs as [|cd cs IH]; intros used t H; simpl in H.
  - inversion H; reflexivity.
  - inv_bind H as ins Hm Hk. apply lookup_of_inspect in Hm as [_ ->]. subst t. simpl.
    f_equal. eapply IH; eauto.
Qed.

Lemma collect_used_fail_iff cs used snap :
  fst (collect_used cs used snap) = None <->
  exists cd, In cd cs /\ lookup_inspect (Id cd) (inspections snap) = None.
Proof.
  revert used; induction cs as [|cd cs IH]; intros used; simpl.
  - split; [discriminate|]. intros (cd & [] & _).
  - rewrite bind_fst. unfold inspect at 1.
    destruct (lookup_inspect (Id cd) (inspections snap)) as [ins|] eqn:El.
    + rewrite IH. split.
      * intros (cd' & H1 & H2). eauto.
      * intros (cd' & [<-|H1] & H2); [congruence|eauto].
    + split; [intros _; eauto|reflexivity].
Qed.

Lemma random_body_ok rnd snap :
  fst (random_body rnd snap) <> None ->
  snd (random_body rnd snap) = ListContainersCall :: map (fun cd => InspectCall (Id cd)) (listing snap).
Proof.
  unfold random_body. intros H.
  destruct (bind _ _ snap) as [[resp|] t] eqn:E; [|contradiction]. simpl.
  inv_bind E as cs Hm Hk. apply listContainers_ok in Hm as (-> & -> & _).
  inv_bind Hk as used Hu Hk. apply collect_used_trace in Hu.
  destruct (draw_loop used rnd) as [rp att].
  destruct (Nat.leb maxAttempts att); injection Hk as _ <-; subst; simpl;
    rewrite app_nil_r; reflexivity.
Qed.

Lemma random_body_fail_iff rnd snap :
  fst (random_body rnd snap) = None <->
  reachable snap = false \/
  exists cd, In cd (listing snap) /\ lookup_inspect (Id cd) (inspections snap) = None.
Proof.
  unfold random_body. rewrite bind_fst. unfold listContainers at 1.
  destruct (reachable snap) eqn:Er; [|split; [auto|reflexivity]].
  assert (Hr : forall P : Prop, (true = false \/ P) <-> P) by (intros P; split; [intros [H|H]; [discriminate|exact H]|auto]).
  rewrite Hr.
  rewrite bind_fst, <- (collect_used_fail_iff (listing snap) []).
  destruct (collect_used (listing snap) [] snap) as [[u|] t]; [|simpl; tauto].
  destruct (draw_loop u rnd) as [rp att].
  destruct (Nat.leb maxAttempts att); simpl; split; discriminate.
Qed.

Lemma inspect_match_none_iff p ins :
  inspect_match p ins = None <-> ~ In (Some p) (map hostPort (container_ports ins)).
Proof.
  split; [apply inspect_match_none|].
  destruct (inspect_match p ins) as [cp|] eqn:E; [|reflexivity].
  apply inspect_match_some in E as (bpre & bnd & bpost & Hc & _ & Hp & _).
  intros Hn; exfalso; apply Hn. rewrite Hc, map_app, in_app_iff. simpl; auto.
Qed.

(** The containers inspected by a scan that answers: up to the first one
    that binds the port, or all of them. *)
Lemma scan_containers_trace p cs snap u t :
  scan_containers p cs snap = (Some u, t) ->
  exists pre post, cs = pre ++ post /\
    t = map (fun cd => InspectCall (Id cd)) pre /\
    (u = None -> post = [] /\ forall cd', In cd' pre -> ~ binds_port snap p cd') /\
    (u <> None -> exists pre' cd, pre = pre' ++ [cd] /\ binds_port snap p cd /\
       forall cd', In cd' pre' -> ~ binds_port snap p cd').
Proof.
  revert t; induction cs as [|cd cs IH]; intros t H; simpl in H.
  - inversion H; subst. exists [], []. split; [reflexivity|]. split; [reflexivity|].
    split; [intros _; split; [reflexivity|intros _ []]|congruence].
  - inv_bind H as ins Hm Hk. apply lookup_of_inspect in Hm as [Hl ->].
    assert (Hb : container_bindings snap cd = container_ports ins)
      by (unfold container_bindings; rewrite Hl; auto).
    destruct (inspect_match p ins) as [cp|] eqn:Em.
    + inv_bind Hk as nm Hn Hk. apply container_name_ok in Hn as (n & rest & _ & -> & ->).
      unfold ret in Hk. injection Hk as <- <-. exists [cd], cs. subst.
      split; [reflexivity|]. split; [reflexivity|]. split; [discriminate|].
      intros _. exists [], cd. split; [reflexivity|]. split; [|intros _ []].
      apply inspect_match_some in Em as (bpre & bnd & bpost & Hc & _ & Hp & _).
      unfold binds_port. rewrite Hb, Hc, map_app, in_app_iff. simpl; auto.
    + assert (Hnb : ~ binds_port snap p cd)
        by (unfold binds_port; rewrite Hb; apply inspect_match_none_iff; exact Em).
      apply IH in Hk as (pre & post & -> & -> & H1 & H2).
      exists (cd :: pre), post. subst t.
      split; [reflexivity|]. split; [reflexivity|]. split.
      * intros Hu. destruct (H1 Hu) as [Hp Hpre]. split; [exact Hp|].
        intros cd' [<-|Hin]; [exact Hnb|exact (Hpre cd' Hin)].
      * intros Hu. destruct (H2 Hu) as (pre' & c & -> & Hc & Hpre).
        exists (cd :: pre'), c. split; [reflexivity|]. split; [exact Hc|].
        intros cd' [<-|Hin]; [exact Hnb|exact (Hpre cd' Hin)].
Qed.

Lemma scan_containers_fail p cs snap t :
  scan_containers p cs snap = (None, t) ->
  exists pre cd post, cs = pre ++ cd :: post /\
    (forall cd', In cd' pre ->
       lookup_inspect (Id cd') (inspections snap) <> None /\ ~ binds_port snap p cd') /\
    (lookup_inspect (Id cd) (inspections snap) = None \/
     (binds_port snap p cd /\ Names cd = [])).
Proof.
  revert t; induction cs as [|cd cs IH]; intros t H; simpl in H; [inversion H|].
  apply bind_none in H as [(t1 & Hm)|(ins & t1 & t2 & Hm & Hk)].
  - unfold inspect in Hm. injection Hm as Hm _. exists [], cd, cs. auto.
  - apply lookup_of_inspect in Hm as [Hl _].
    assert (Hb : container_bindings snap cd = container_ports ins)
      by (unfold container_bindings; rewrite Hl; auto).
    destruct (inspect_match p ins) as [cp|] eqn:Em.
    + apply bind_none in Hk as [(t3 & Hn)|(nm & t3 & t4 & Hn & Hk)]; [|discriminate].
      unfold container_name in Hn. destruct (Names cd) eqn:En; [|discriminate].
      exists [], cd, cs. split; [reflexivity|]. split; [intros _ []|]. right; split; auto.
      unfold binds_port. rewrite Hb.
      apply inspect_match_some in Em as (bpre & bnd & bpost & Hc & _ & Hp & _).
      rewrite Hc, map_app, in_app_iff. simpl; auto.
    + apply IH in Hk as (pre & c & post & -> & Hpre & Hc).
      exists (cd :: pre), c, post. split; [reflexivity|]. split; [|exact Hc].
      intros cd' [<-|Hin]; [|exact (Hpre cd' Hin)]. split; [congruence|].
      unfold binds_port. rewrite Hb. apply inspect_match_none_iff; exact Em.
Qed.

Lemma scan_containers_fail_of p pre cd post snap :
  (forall cd', In cd' pre ->
     lookup_inspect (Id cd') (inspections snap) <> None /\ ~ binds_port snap p cd') ->
  (lookup_inspect (Id cd) (inspections snap) = None \/
   (binds_port snap p cd /\ Names cd = [])) ->
  fst (scan_containers p (pre ++ cd :: post) snap) = None.
Proof.
  intros Hpre Hcd. induction pre as [|cd0 pre IH]; simpl.
  - rewrite bind_fst. unfold inspect at 1.
    destruct (lookup_inspect (Id cd) (inspections snap)) as [ins|] eqn:El; [|reflexivity].
    destruct Hcd as [Hcd|[Hbp Hn]]; [congruence|].
    assert (Hb : container_bindings snap cd = container_ports ins)
      by (unfold container_bindings; rewrite El; auto).
    unfold binds_port in Hbp. rewrite Hb in Hbp.
    destruct (inspect_match p ins) as [cp|] eqn:Em.
    + rewrite bind_fst. unfold container_name. rewrite Hn. reflexivity.
    + apply inspect_match_none_iff in Em. contradiction.
  - rewrite bind_fst. unfold inspect at 1.
    destruct (Hpre cd0 (or_introl eq_refl)) as [Hl Hnb].
    destruct (lookup_inspect (Id cd0) (inspections snap)) as [ins|] eqn:El; [|congruence].
    assert (Hb : container_bindings snap cd0 = container_ports ins)
      by (unfold container_bindings; rewrite El; auto).
    unfold binds_port in Hnb. rewrite Hb in Hnb. apply inspect_match_none_iff in Hnb.
    rewrite Hnb. apply IH. intros cd' Hin; apply Hpre; simpl; auto.
Qed.

(* ------------------------------------------------------------------ *)
(** ** Short ids *)

Lemma substring_0_prefix n s : String.prefix (substring 0 n s) s = true.
Proof.
  revert n; induction s as [|c s IH]; intros [|n]; simpl; auto.
  destruct (ascii_dec c c) as [_|E]; [apply IH|contradiction].
Qed.

Lemma substring_0_length n s : String.length (substring 0 n s) = Nat.min n (String.length s).
Proof.
  revert n; induction s as [|c s IH]; intros [|n]; simpl; auto.
Qed.


(* ------------------------------------------------------------------ *)
(** ** The claims *)

(** C1 (amended).  [usedPorts] holds each host port of the returned
    containers' bindings exactly once and nothing else; it is in ascending
    numeric order whenever all of these host ports are integers.  A [NaN]
    host port (an unparseable HostPort) is in it, and as soon as it holds
    another value beside [NaN], no order of its values is ascending. *)
Theorem api_ports_usedPorts_union snap body tr :
  api_ports snap = (PortsOk body, tr) ->
  NoDup (usedPorts body) /\
  (forall x, In x (usedPorts body) <->
     exists c, In c (containers body) /\ In x (map hostPort (ports c))) /\
  ((forall c x, In c (containers body) -> In x (map hostPort (ports c)) -> x <> NaN) ->
   Sorted num_le (usedPorts body)) /\
  ((exists c pb, In c (containers body) /\ In pb (ports c) /\ hostPort pb = NaN) ->
   In NaN (usedPorts body)) /\
  (In NaN (usedPorts body) -> (2 <= List.length (usedPorts body))%nat ->
   forall l, Permutation l (usedPorts body) -> ~ Sorted num_le l).
Proof.
  intros H. apply api_ports_ok in H as (_ & Hnd & _ & Hu & Hs).
  split; [exact Hnd|]. split; [exact Hu|]. split.
  { intros Hn. apply Hs. intros x Hx. apply Hu in Hx as (c & Hc & Hx). exact (Hn c x Hc Hx). }
  split.
  { intros (c & pb & Hc & Hpb & Hx). apply Hu. exists c. split; [exact Hc|].
    rewrite <- Hx. apply in_map, Hpb. }
  intros Hn Hlen l Hp Hsl.
  destruct l as [|a [|c l]];
    [apply Permutation_length in Hp; simpl in Hp; lia
    |apply Permutation_length in Hp; simpl in Hp; lia|].
  exact (sorted_num_le_no_nan a c l Hsl NaN
           (Permutation_in _ (Permutation_sym Hp) Hn) eq_refl).
Qed.

Lemma api_ports_usedPorts_union_witness :
  exists body tr, api_ports spec_snapshot = (PortsOk body, tr) /\
  NoDup (usedPorts body) /\
  (forall x, In x (usedPorts body) <->
     exists c, In c (containers body) /\ In x (map hostPort (ports c))) /\
  ((forall c x, In c (containers body) -> In x (map hostPort (ports c)) -> x <> NaN) ->
   Sorted num_le (usedPorts body)) /\
  ((exists c pb, In c (containers body) /\ In pb (ports c) /\ hostPort pb = NaN) ->
   In NaN (usedPorts body)) /\
  (In NaN (usedPorts body) -> (2 <= List.length (usedPorts body))%nat ->
   forall l, Permutation l (usedPorts body) -> ~ Sorted num_le l).
Proof.
  do 2 eexists. split; [vm_compute; reflexivity|].
  apply api_ports_usedPorts_union with (snap := spec_snapshot) (tr := [ListContainersCall;
    InspectCall "aaaaaaaaaaaaaaaa"; InspectCall "bbbbbbbbbbbbbbbb"; InspectCall "cccccccccccccccc"]).
  vm_compute. reflexivity.
Defined.

(** C1 (counterexample).  With an unparseable HostPort the inventory
    succeeds but [usedPorts] holds [NaN] (sent as [null]) beside 70000: no
    order of these two values, the engine's or any other, is ascending. *)
Lemma api_ports_usedPorts_nan_unordered :
  exists body tr, api_ports nan_snapshot = (PortsOk body, tr) /\
  In NaN (usedPorts body) /\
  ~ Sorted num_le (usedPorts body) /\
  (forall l, Permutation l (usedPorts body) -> ~ Sorted num_le l).
Proof.
  do 2 eexists. split; [vm_compute; reflexivity|]. simpl.
  assert (Hall : forall l, Permutation l [NaN; Some 70000%Z] -> ~ Sorted num_le l).
  { intros l Hp Hs. pose proof (Permutation_length Hp) as Hl.
    destruct l as [|a [|c [|]]]; try discriminate.
    apply (sorted_num_le_no_nan a c [] Hs NaN).
    apply (Permutation_in _ (Permutation_sym Hp)). left; reflexivity. reflexivity. }
  split; [left; reflexivity|]. split; [apply Hall; reflexivity|exact Hall].
Qed.

(** C2.  A check that answers reports [available = true] exactly when no
    listed container has a binding on the port; otherwise [usedBy] names
    the first such container in enumeration order (its normalized first
    name) with the [containerPort] of its first binding on the port. *)
Theorem api_check_first_match s snap r tr :
  api_check s snap = (CheckOk r, tr) ->
  (available r = true <-> forall cd, In cd (listing snap) -> ~ binds_port snap (port r) cd) /\
  (available r = false ->
     exists pre cd post n rest bpre bnd bpost,
       listing snap = pre ++ cd :: post /\
       (forall cd', In cd' pre -> ~ binds_port snap (port r) cd') /\
       Names cd = n :: rest /\
       container_bindings snap cd = bpre ++ bnd :: bpost /\
       ~ In (Some (port r)) (map hostPort bpre) /\ hostPort bnd = Some (port r) /\
       usedBy r = Some (mkUsedBy (replace_first_slash n) (containerPort bnd))).
Proof.
  intros H. apply api_check_ok in H as (_ & _ & Ha & Hnone & Hsome).
  destruct (usedBy r) as [v|] eqn:Eu; simpl in Ha.
  - destruct (Hsome v eq_refl) as (pre & cd & post & n & rest & bpre & bnd & bpost &
                                   Hl & Hpre & Hn & Hb & Hnot & Hp & ->).
    split.
    + rewrite Ha. split; [discriminate|]. intros Hall.
      exfalso. apply (Hall cd); [rewrite Hl; apply in_elt|].
      unfold binds_port. rewrite Hb, map_app, in_app_iff. right. left. exact Hp.
    + intros _. exists pre, cd, post, n, rest, bpre, bnd, bpost. auto 8.
  - split; [split; [intros _; exact (Hnone eq_refl)|auto]|]. congruence.
Qed.

Lemma api_check_first_match_witness :
  (available (mkPortCheckResult 8080 false (Some (mkUsedBy "web" "80/tcp"))) = true <->
   forall cd, In cd (listing spec_snapshot) -> ~ binds_port spec_snapshot 8080 cd) /\
  (available (mkPortCheckResult 8080 false (Some (mkUsedBy "web" "80/tcp"))) = false ->
     exists pre cd post n rest bpre bnd bpost,
       listing spec_snapshot = pre ++ cd :: post /\
       (forall cd', In cd' pre -> ~ binds_port spec_snapshot 8080 cd') /\
       Names cd = n :: rest /\
       container_bindings spec_snapshot cd = bpre ++ bnd :: bpost /\
       ~ In (Some 8080%Z) (map hostPort bpre) /\ hostPort bnd = Some 8080%Z /\
       Some (mkUsedBy "web" "80/tcp") =
         Some (mkUsedBy (replace_first_slash n) (containerPort bnd))).
Proof.
  apply (api_check_first_match "8080" spec_snapshot
           (mkPortCheckResult 8080 false (Some (mkUsedBy "web" "80/tcp")))
           [ListContainersCall; InspectCall "aaaaaaaaaaaaaaaa"]).
  vm_compute. reflexivity.
Defined.

(** C3 (code defect).  On a snapshot where 3000 is taken, the first 99
    draws give 3000 and the 100th gives the free port 3001; the handler
    still answers "Could not find available port", because the loop exits
    with [attempts = maxAttempts] and [attempts >= maxAttempts] is then
    read as exhaustion. *)
Theorem api_random_rejects_free_last_draw :
  fst (api_random empty_request last_draw_free busy_3000_snapshot) = RandomExhausted /\
  render_random (fst (api_random empty_request last_draw_free busy_3000_snapshot)) =
    (500%Z, JObj [("error", JStr "Could not find available port")]) /\
  (forall k, (k < 99)%nat -> draw last_draw_free k = 3000%Z) /\
  draw last_draw_free 99 = 3001%Z /\
  (forall cd, In cd (listing busy_3000_snapshot) -> binds_port busy_3000_snapshot 3000 cd) /\
  (forall cd, In cd (listing busy_3000_snapshot) -> ~ binds_port busy_3000_snapshot 3001 cd).
Proof.
  split; [vm_compute; reflexivity|]. split; [vm_compute; reflexivity|].
  split; [|split; [vm_compute; reflexivity|]].
  - intros k Hk. unfold draw, last_draw_free.
    apply Nat.ltb_lt in Hk. rewrite Hk. reflexivity.
  - split; intros cd [<-|[]]; vm_compute; [left; reflexivity|intros [H|[]]; discriminate].
Qed.

(** C4 (amended).  The check answers ValidationFailure (400) exactly when
    [parseInt] of the parameter is [NaN] or an integer outside [1, 65535],
    and then without any runtime call.  A 200 answer is about the port
    [parseInt] reads, the leading integer of the parameter: ["80abc"] is
    checked as port 80 (while ["70000abc"] is rejected). *)
Theorem api_check_validation_short_circuit s snap :
  (fst (api_check s snap) = CheckInvalid <->
   parseInt s = NaN \/ exists n, parseInt s = Some n /\ (n < 1 \/ 65535 < n)%Z) /\
  ((parseInt s = NaN \/ exists n, parseInt s = Some n /\ (n < 1 \/ 65535 < n)%Z) ->
   snd (api_check s snap) = []) /\
  (forall r tr, api_check s snap = (CheckOk r, tr) -> parseInt s = Some (port r)).
Proof.
  split; [|split]; [| |intros r tr H; apply api_check_ok in H as (Hp & _); exact Hp].
  2: { destruct (parseInt s) as [p|] eqn:Ep.
       - intros Hc. destruct (invalid_port (Some p)) eqn:Ev.
         + rewrite (api_check_invalid s snap) by (rewrite Ep; exact Ev). reflexivity.
         + exfalso. simpl in Ev. apply orb_false_iff in Ev as [E1 E2].
           apply Z.ltb_ge in E1, E2.
           destruct Hc as [Hc|(n & Hn & Hc)]; [discriminate|]. injection Hn as <-. lia.
       - intros _. rewrite (api_check_invalid s snap) by (rewrite Ep; reflexivity).
         reflexivity. }
  unfold api_check, check_body.
  destruct (parseInt s) as [p|] eqn:Ep.
  - destruct (invalid_port (Some p)) eqn:Ev.
    + simpl in Ev. apply orb_true_iff in Ev. rewrite !Z.ltb_lt in Ev.
      simpl. split; [eauto|auto].
    + simpl in Ev. apply orb_false_iff in Ev as [E1 E2]. apply Z.ltb_ge in E1, E2.
      assert (Hn : ~ (Some p = NaN \/ exists n, Some p = Some n /\ (n < 1 \/ 65535 < n)%Z)).
      { intros [H|(n & Hn & H)]; [discriminate|]. injection Hn as <-. lia. }
      destruct (bind _ _ snap) as [[resp|] t] eqn:E.
      * inv_bind E as cs Hm Hk. inv_bind Hk as u Hs Hk. injection Hk as <-.
        simpl. split; [discriminate|intros Hc; exfalso; exact (Hn Hc)].
      * simpl. split; [discriminate|intros Hc; exfalso; exact (Hn Hc)].
  - simpl. split; auto.
Qed.

(** C4 (counterexample).  The parameter ["80abc"] is not numeric, yet it
    is accepted as port 80 and the daemon is enumerated and inspected. *)
Lemma api_check_accepts_numeric_prefix :
  api_check "80abc" spec_snapshot =
    (CheckOk (mkPortCheckResult 80 true None),
     [ListContainersCall; InspectCall "aaaaaaaaaaaaaaaa";
      InspectCall "bbbbbbbbbbbbbbbb"; InspectCall "cccccccccccccccc"]) /\
  fst (api_check "80abc" spec_snapshot) <> CheckInvalid /\
  snd (api_check "80abc" spec_snapshot) <> [].
Proof.
  split; [vm_compute; reflexivity|]. split; vm_compute; discriminate.
Qed.

Lemma api_ports_record_source snap body tr c pb :
  api_ports snap = (PortsOk body, tr) -> In c (containers body) -> In pb (ports c) ->
  exists cd ins, In cd (listing snap) /\ In c (contributed_record snap cd) /\
    lookup_inspect (Id cd) (inspections snap) = Some ins /\ In pb (container_ports ins).
Proof.
  intros H Hc Hpb. apply api_ports_ok in H as (Hi & _).
  rewrite Hi in Hc. apply in_flat_map in Hc as (cd & Hcd & Hc).
  rewrite (contributed_record_ports _ _ _ Hc) in Hpb.
  unfold container_bindings in Hpb.
  destruct (lookup_inspect (Id cd) (inspections snap)) as [ins|] eqn:El; [|destruct Hpb].
  eauto 6.
Qed.

(** The binding a reported HostPort gives in [container_ports]. *)
Lemma container_ports_of_binding ins table cport bs rb :
  Ports ins = Some table -> In (cport, Some bs) table -> In rb bs ->
  In (mkPortBinding cport (parseInt (HostPort rb)) (host_ip_or_default (HostIp rb)))
     (container_ports ins).
Proof.
  intros Ht Htab Hrb. unfold container_ports. rewrite Ht.
  apply in_flat_map. exists (cport, Some bs). split; [exact Htab|].
  simpl. apply in_map_iff. exists rb. auto.
Qed.

Lemma api_ports_fst snap :
  fst (api_ports snap) = PortsFailed <-> fst (ports_body snap) = None.
Proof.
  unfold api_ports. destruct (ports_body snap) as [[b'|] t]; simpl; split; congruence.
Qed.

(** C5 (amended).  A HostPort string is never a reason for the inventory
    to fail: it fails exactly when the daemon cannot be reached to list
    the containers, a listed container cannot be inspected, or a
    container with bindings has no name.  No binding is skipped for its
    HostPort: every binding the daemon reports for a listed container
    appears, with [hostPort] its HostPort read by [parseInt] and no range
    check ([NaN] when the string does not parse), among the ports of that
    container's own record, and its [hostPort] is in [usedPorts]; and each
    returned binding is one the daemon reported for the container of its
    record. *)
Theorem api_ports_host_ports_unchecked snap :
  (fst (api_ports snap) = PortsFailed <->
   reachable snap = false \/
   exists cd, In cd (listing snap) /\
     (lookup_inspect (Id cd) (inspections snap) = None \/
      (container_bindings snap cd <> [] /\ Names cd = []))) /\
  (forall body tr cd ins table cport bs rb,
     api_ports snap = (PortsOk body, tr) ->
     In cd (listing snap) -> lookup_inspect (Id cd) (inspections snap) = Some ins ->
     Ports ins = Some table -> In (cport, Some bs) table -> In rb bs ->
     exists c, In c (containers body) /\ In c (contributed_record snap cd) /\
       In (mkPortBinding cport (parseInt (HostPort rb)) (host_ip_or_default (HostIp rb)))
          (ports c) /\
       In (parseInt (HostPort rb)) (usedPorts body)) /\
  (forall body tr c pb, api_ports snap = (PortsOk body, tr) ->
     In c (containers body) -> In pb (ports c) ->
     exists cd ins table cport bs rb,
       In cd (listing snap) /\ In c (contributed_record snap cd) /\
       lookup_inspect (Id cd) (inspections snap) = Some ins /\
       Ports ins = Some table /\ In (cport, Some bs) table /\ In rb bs /\
       pb = mkPortBinding cport (parseInt (HostPort rb)) (host_ip_or_default (HostIp rb))).
Proof.
  split; [rewrite api_ports_fst; apply ports_body_fail_iff|]. split.
  - intros body tr cd ins table cport bs rb H Hcd Hl Ht Htab Hrb.
    pose proof (container_ports_of_binding ins table cport bs rb Ht Htab Hrb) as Hin.
    set (pb := mkPortBinding cport (parseInt (HostPort rb)) (host_ip_or_default (HostIp rb)))
      in *.
    assert (Hb : container_bindings snap cd = container_ports ins)
      by (unfold container_bindings; rewrite Hl; reflexivity).
    assert (Hok : fst (ports_body snap) <> None).
    { intros E. apply api_ports_fst in E. rewrite H in E. discriminate. }
    destruct (Names cd) as [|n rest] eqn:En.
    { exfalso. apply Hok, ports_body_fail_iff. right. exists cd. split; [exact Hcd|].
      right. split; [|exact En]. rewrite Hb. intros E. rewrite E in Hin. destruct Hin. }
    apply api_ports_ok in H as (Hi & _ & Hu & _ & _).
    set (c := mkContainerInfo (substring_0_12 (Id cd)) (replace_first_slash n)
                (Image cd) (Status cd) (container_ports ins)).
    assert (Hc : contributed_record snap cd = [c]).
    { unfold contributed_record, c. rewrite Hb, En.
      destruct (container_ports ins) as [|p0 ps]; [destruct Hin|reflexivity]. }
    exists c. split; [|split; [|split]].
    + rewrite Hi. apply in_flat_map. exists cd. rewrite Hc. split; [exact Hcd|left; reflexivity].
    + rewrite Hc. left. reflexivity.
    + exact Hin.
    + apply Hu. exists cd. split; [exact Hcd|]. rewrite Hb.
      apply (in_map hostPort _ _ Hin).
  - intros body tr c pb H Hc Hpb.
    destruct (api_ports_record_source _ _ _ _ _ H Hc Hpb) as (cd & ins & Hcd & Hcr & Hl & Hin).
    apply container_ports_parse in Hin as (table & cport & bs & rb & Ht & Htab & Hrb & ->).
    exists cd, ins, table, cport, bs, rb. auto 8.
Qed.

(** C5 (counterexample).  HostPorts ["abc"] and ["70000"]: the inventory
    succeeds, and both bindings are returned, with host ports [NaN] and
    70000, neither an integer of [1, 65535]. *)
Lemma api_ports_keeps_unparseable_binding :
  exists body tr, api_ports nan_snapshot = (PortsOk body, tr) /\
  In NaN (usedPorts body) /\ In (Some 70000%Z) (usedPorts body) /\
  exists c, In c (containers body) /\ map hostPort (ports c) = [NaN; Some 70000%Z].
Proof.
  do 2 eexists. split; [vm_compute; reflexivity|]. simpl.
  split; [auto|]. split; [auto|]. eexists; split; [left; reflexivity|reflexivity].
Qed.

(** C6.  The returned containers are, in enumeration order, the records of
    the listed containers with a non-empty binding list; [usedPorts] holds
    exactly the host ports of the listed containers' bindings; and a
    container whose table is absent or whose entries are all [null] or
    empty has no binding, so it contributes no record and no port. *)
Theorem api_ports_omits_unpublished snap body tr :
  api_ports snap = (PortsOk body, tr) ->
  containers body = flat_map (contributed_record snap) (listing snap) /\
  (forall x, In x (usedPorts body) <->
     exists cd, In cd (listing snap) /\ In x (map hostPort (container_bindings snap cd))) /\
  (forall cd ins, lookup_inspect (Id cd) (inspections snap) = Some ins ->
     no_published_ports ins ->
     container_bindings snap cd = [] /\ contributed_record snap cd = []).
Proof.
  intros H. apply api_ports_ok in H as (Hi & _ & Hu & _).
  split; [exact Hi|]. split; [exact Hu|].
  intros cd ins Hl Hn.
  assert (Hb : container_bindings snap cd = [])
    by (unfold container_bindings; rewrite Hl; apply no_published_ports_empty, Hn).
  split; [exact Hb|]. unfold contributed_record. rewrite Hb. reflexivity.
Qed.

Lemma api_ports_omits_unpublished_witness :
  exists body tr, api_ports spec_snapshot = (PortsOk body, tr) /\
  containers body = flat_map (contributed_record spec_snapshot) (listing spec_snapshot) /\
  (forall x, In x (usedPorts body) <->
     exists cd, In cd (listing spec_snapshot) /\
       In x (map hostPort (container_bindings spec_snapshot cd))) /\
  (forall cd ins, lookup_inspect (Id cd) (inspections spec_snapshot) = Some ins ->
     no_published_ports ins ->
     container_bindings spec_snapshot cd = [] /\ contributed_record spec_snapshot cd = []).
Proof.
  do 2 eexists. split; [vm_compute; reflexivity|].
  apply api_ports_omits_unpublished with (tr := [ListContainersCall;
    InspectCall "aaaaaaaaaaaaaaaa"; InspectCall "bbbbbbbbbbbbbbbb"; InspectCall "cccccccccccccccc"]).
  vm_compute. reflexivity.
Defined.

(** C7.  When the random endpoint answers a port, that port lies in
    [3000, 9999], no binding of the snapshot's containers uses it (so it is
    not in the inventory's [usedPorts] either), and the body says
    [available: true]. *)
Theorem api_random_port_free_in_range req rnd snap p tr :
  (forall k, (0 <= rnd k < 1)%Q) ->
  api_random req rnd snap = (RandomOk p, tr) ->
  (3000 <= p <= 9999)%Z /\
  (forall cd, In cd (listing snap) -> ~ binds_port snap p cd) /\
  (forall body tr', api_ports snap = (PortsOk body, tr') -> ~ In (Some p) (usedPorts body)) /\
  render_random (RandomOk p) = (200%Z, JObj [("port", JNum p); ("available", JBool true)]).
Proof.
  intros Hr H. apply api_random_ok in H as [Hfree (k & ->)].
  split; [apply draw_range, Hr|]. split; [exact Hfree|]. split; [|reflexivity].
  intros body tr' Hp Hin. apply api_ports_ok in Hp as (_ & _ & Hu & _).
  apply Hu in Hin as (cd & Hcd & Hb). exact (Hfree cd Hcd Hb).
Qed.

Lemma api_random_port_free_in_range_witness :
  (forall k, (0 <= zero_random k < 1)%Q) /\
  (3000 <= 3000 <= 9999)%Z /\
  (forall cd, In cd (listing spec_snapshot) -> ~ binds_port spec_snapshot 3000 cd) /\
  (forall body tr', api_ports spec_snapshot = (PortsOk body, tr') ->
     ~ In (Some 3000%Z) (usedPorts body)) /\
  render_random (RandomOk 3000) =
    (200%Z, JObj [("port", JNum 3000); ("available", JBool true)]).
Proof.
  assert (Hr : forall k, (0 <= zero_random k < 1)%Q)
    by (intros k; unfold zero_random; split; [apply Qle_refl|reflexivity]).
  split; [exact Hr|].
  apply (api_random_port_free_in_range empty_request zero_random spec_snapshot 3000
           [ListContainersCall; InspectCall "aaaaaaaaaaaaaaaa";
            InspectCall "bbbbbbbbbbbbbbbb"; InspectCall "cccccccccccccccc"] Hr).
  vm_compute. reflexivity.
Defined.

(** C8 (amended).  In a check result [usedBy] is [null] exactly when
    [available] is true; the sent body always has a [usedBy] property,
    [null] exactly when the port is available. *)
Theorem api_check_usedBy_null_iff_available s snap r tr :
  api_check s snap = (CheckOk r, tr) ->
  (usedBy r = None <-> available r = true) /\
  exists fields, snd (render_check (CheckOk r)) = JObj fields /\
    (exists u, In ("usedBy", u) fields) /\
    (In ("usedBy", JNull) fields <-> available r = true).
Proof.
  intros H. apply api_check_ok in H as (_ & _ & Ha & _).
  split; [destruct (usedBy r); simpl in Ha; rewrite Ha; split; congruence|].
  eexists; split; [reflexivity|]. split; [eexists; right; right; left; reflexivity|].
  destruct (usedBy r) as [v|]; simpl in Ha; rewrite Ha; simpl; split.
  - intros [E|[E|[E|[]]]]; discriminate.
  - discriminate.
  - auto.
  - auto.
Qed.

Lemma api_check_usedBy_null_iff_available_witness :
  (None = @None UsedBy <-> true = true) /\
  exists fields,
    snd (render_check (CheckOk (mkPortCheckResult 1234 true None))) = JObj fields /\
    (exists u, In ("usedBy", u) fields) /\
    (In ("usedBy", JNull) fields <-> true = true).
Proof.
  apply (api_check_usedBy_null_iff_available "1234" spec_snapshot
           (mkPortCheckResult 1234 true None)
           [ListContainersCall; InspectCall "aaaaaaaaaaaaaaaa";
            InspectCall "bbbbbbbbbbbbbbbb"; InspectCall "cccccccccccccccc"]).
  vm_compute. reflexivity.
Defined.

(** C8 (counterexample).  Checking the free port 1234 sends
    [{"port": 1234, "available": true, "usedBy": null}]: the [usedBy]
    property is there although the port is available. *)
Lemma api_check_available_sends_usedBy_null :
  render_check (fst (api_check "1234" spec_snapshot)) =
    (200%Z, JObj [("port", JNum 1234); ("available", JBool true); ("usedBy", JNull)]).
Proof. vm_compute. reflexivity. Qed.

Lemma contributed_record_name snap cd c :
  In c (contributed_record snap cd) ->
  exists n rest, Names cd = n :: rest /\ name c = replace_first_slash n.
Proof.
  unfold contributed_record.
  destruct (container_bindings snap cd); [intros []|].
  destruct (Names cd) as [|n rest]; [intros []|]. intros [<-|[]]. eauto.
Qed.

Lemma replace_first_slash_no_slash n : no_slash n -> replace_first_slash n = n.
Proof.
  induction n as [|c n IH]; simpl; auto. intros [Hc Hn].
  destruct (Ascii.eqb c "/"%char) eqn:E; [apply Ascii.eqb_eq in E; contradiction|].
  rewrite IH; auto.
Qed.

(** C9.  The reported name is the container's own first name without
    its leading ['/'] when it begins with one, and that name unchanged
    when it holds no ['/'] at all; both the inventory and the check report
    names this way.  Every name the daemon lists begins with ['/'] (those
    of linked containers, ["/parent/alias"], too), so these two cases
    cover all of them. *)
Theorem reported_name_drops_leading_slash :
  (forall snap body tr c, api_ports snap = (PortsOk body, tr) -> In c (containers body) ->
     exists cd n rest, In cd (listing snap) /\ In c (contributed_record snap cd) /\
       Names cd = n :: rest /\
       (forall m, n = String "/" m -> name c = m) /\
       (no_slash n -> name c = n)) /\
  (forall s snap r tr v, api_check s snap = (CheckOk r, tr) -> usedBy r = Some v ->
     exists pre cd post n rest, listing snap = pre ++ cd :: post /\
       (forall cd', In cd' pre -> ~ binds_port snap (port r) cd') /\
       binds_port snap (port r) cd /\ Names cd = n :: rest /\
       (forall m, n = String "/" m -> container v = m) /\
       (no_slash n -> container v = n)).
Proof.
  split.
  - intros snap body tr c H Hc. apply api_ports_ok in H as (Hi & _).
    rewrite Hi in Hc. apply in_flat_map in Hc as (cd & Hcd & Hc).
    pose proof (contributed_record_name _ _ _ Hc) as (n & rest & Hn & Hname).
    exists cd, n, rest. split; [exact Hcd|]. split; [exact Hc|]. split; [exact Hn|].
    split; [intros m ->; exact Hname|].
    intros Hs. rewrite Hname. apply replace_first_slash_no_slash, Hs.
  - intros s snap r tr v H Hv. apply api_check_ok in H as (_ & _ & _ & _ & Hs).
    destruct (Hs v Hv) as (pre & cd & post & n & rest & bpre & bnd & bpost &
                           Hl & Hpre & Hn & Hb & _ & Hp & ->).
    exists pre, cd, post, n, rest. split; [exact Hl|]. split; [exact Hpre|].
    split.
    { unfold binds_port. rewrite Hb, map_app, in_app_iff. simpl. rewrite Hp. auto. }
    split; [exact Hn|]. simpl.
    split; [intros m ->; reflexivity|]. apply replace_first_slash_no_slash.
Qed.

(** C10.  The random endpoint reads nothing from the request and nothing
    of [Math.random()] beyond its first [maxAttempts] = 100 calls: any two
    requests on one snapshot whose first 100 random values agree get the
    same answer.  Each call draws [Math.floor(r * 7000) + 3000], in
    [3000, 9999] for [r] in [0, 1). *)
Theorem api_random_fixed_range_and_budget req1 req2 rnd1 rnd2 snap :
  (forall k, (k < 100)%nat -> rnd1 k = rnd2 k) ->
  api_random req1 rnd1 snap = api_random req2 rnd2 snap /\
  maxAttempts = 100%nat /\
  (forall k, draw rnd1 k = (Qfloor (rnd1 k * inject_Z 7000) + 3000)%Z) /\
  (forall k, (0 <= rnd1 k < 1)%Q -> (3000 <= draw rnd1 k <= 9999)%Z).
Proof.
  intros Hr.
  split; [|split; [reflexivity|split; [reflexivity|intros k; apply draw_range]]].
  assert (Hd : forall used, draw_loop used rnd1 = draw_loop used rnd2)
    by (intros used; apply do_while_agree; [exact Hr|unfold maxAttempts; lia]).
  unfold api_random, random_body, bind.
  destruct (listContainers snap) as [[cs|] t1]; [|reflexivity].
  destruct (collect_used cs [] snap) as [[used|] t2]; [|reflexivity].
  rewrite (Hd used). reflexivity.
Qed.

Lemma api_random_fixed_range_and_budget_witness :
  api_random empty_request zero_random spec_snapshot =
    api_random other_request zero_random spec_snapshot /\
  maxAttempts = 100%nat /\
  (forall k, draw zero_random k = (Qfloor (zero_random k * inject_Z 7000) + 3000)%Z) /\
  (forall k, (0 <= zero_random k < 1)%Q -> (3000 <= draw zero_random k <= 9999)%Z).
Proof.
  apply api_random_fixed_range_and_budget. intros k _. reflexivity.
Defined.

(* ------------------------------------------------------------------ *)
(** ** Further properties of the endpoints and of their client *)

(** The check endpoint answers 500 exactly when the port is valid and
    either the daemon cannot be reached to list the containers, or the
    scan meets, before any container binding the port, a container the
    daemon does not know, or first meets a binding container with no
    name. *)
Theorem api_check_failed_iff s snap :
  fst (api_check s snap) = CheckFailed <->
  exists p, parseInt s = Some p /\ (1 <= p <= 65535)%Z /\
    (reachable snap = false \/
     exists pre cd post, listing snap = pre ++ cd :: post /\
       (forall cd', In cd' pre ->
          lookup_inspect (Id cd') (inspections snap) <> None /\ ~ binds_port snap p cd') /\
       (lookup_inspect (Id cd) (inspections snap) = None \/
        (binds_port snap p cd /\ Names cd = []))).
Proof.
  unfold api_check, check_body.
  destruct (parseInt s) as [p|] eqn:Ep.
  - destruct (invalid_port (Some p)) eqn:Ev.
    + simpl. split; [discriminate|]. intros (p' & Hp' & Hr & _). injection Hp' as <-.
      simpl in Ev. apply orb_true_iff in Ev as [E|E]; apply Z.ltb_lt in E; lia.
    + assert (Hr : (1 <= p <= 65535)%Z).
      { simpl in Ev. apply orb_false_iff in Ev as [E1 E2]. apply Z.ltb_ge in E1, E2. lia. }
      destruct (bind _ _ snap) as [[resp|] t] eqn:E; simpl.
      * inv_bind E as cs Hm Hk. apply listContainers_ok in Hm as (-> & _ & Hre).
        inv_bind Hk as u Hs Hk. unfold ret in Hk. injection Hk as <- _.
        split; [discriminate|].
        intros (p' & Hp' & _ & [Hre'|(pre & cd & post & Hl & Hpre & Hcd)]);
          [congruence|].
        injection Hp' as <-. rewrite Hl in Hs.
        pose proof (scan_containers_fail_of p pre cd post snap Hpre Hcd) as Hf.
        rewrite Hs in Hf. discriminate.
      * split; [intros _|reflexivity]. exists p. split; [reflexivity|]. split; [exact Hr|].
        apply bind_none in E as [(t1 & Hm)|(cs & t1 & t2 & Hm & Hk)].
        { left. unfold listContainers in Hm.
          destruct (reachable snap); [discriminate|reflexivity]. }
        right. apply listContainers_ok in Hm as (-> & _ & _).
        apply bind_none in Hk as [(t3 & Hs)|(u & t3 & t4 & Hs & Hk)];
          [|unfold ret in Hk; discriminate].
        apply scan_containers_fail in Hs. exact Hs.
  - simpl. split; [discriminate|]. intros (p' & Hp' & _). discriminate.
Qed.

(** A check that answers 200 has listed the containers once and then
    inspected them in listing order, stopping after the first one that
    binds the port: none of the containers inspected before it binds the
    port.  It inspected them all, none binding the port, when the port is
    free. *)
Theorem api_check_inspects_up_to_owner s snap r tr :
  api_check s snap = (CheckOk r, tr) ->
  exists pre post, listing snap = pre ++ post /\
    tr = ListContainersCall :: map (fun cd => InspectCall (Id cd)) pre /\
    (available r = true -> post = [] /\ forall cd', In cd' pre -> ~ binds_port snap (port r) cd') /\
    (available r = false ->
       exists pre' cd, pre = pre' ++ [cd] /\ binds_port snap (port r) cd /\
         forall cd', In cd' pre' -> ~ binds_port snap (port r) cd').
Proof.
  unfold api_check, check_body.
  destruct (parseInt s) as [p|] eqn:Ep; [|intros H; inversion H].
  destruct (invalid_port (Some p)) eqn:Ev; [intros H; inversion H|].
  destruct (bind _ _ snap) as [[resp|] t] eqn:E; intros H; inversion H; subst resp t.
  inv_bind E as cs Hm Hk. apply listContainers_ok in Hm as (-> & -> & _).
  inv_bind Hk as u Hs Hk. unfold ret in Hk. injection Hk as Hr Ht. subst r.
  apply scan_containers_trace in Hs as (pre & post & Hl & Hts & H1 & H2).
  exists pre, post. split; [exact Hl|].
  split; [subst; simpl; rewrite app_nil_r; reflexivity|].
  simpl. split; intros Ha; [apply H1 | apply H2]; destruct u; simpl in Ha; congruence.
Qed.

Lemma api_check_inspects_up_to_owner_witness :
  exists r tr, api_check "5432" spec_snapshot = (CheckOk r, tr) /\
  exists pre post, listing spec_snapshot = pre ++ post /\
    tr = ListContainersCall :: map (fun cd => InspectCall (Id cd)) pre /\
    (available r = true ->
       post = [] /\ forall cd', In cd' pre -> ~ binds_port spec_snapshot (port r) cd') /\
    (available r = false ->
       exists pre' cd, pre = pre' ++ [cd] /\ binds_port spec_snapshot (port r) cd /\
         forall cd', In cd' pre' -> ~ binds_port spec_snapshot (port r) cd').
Proof.
  do 2 eexists. split; [vm_compute; reflexivity|].
  apply (api_check_inspects_up_to_owner "5432" spec_snapshot).
  vm_compute. reflexivity.
Defined.

(** On one daemon state, the check and the inventory agree: a port is
    reported available exactly when it is not among [usedPorts]. *)
Theorem api_check_agrees_with_api_ports s snap r tr body tr' :
  api_check s snap = (CheckOk r, tr) -> api_ports snap = (PortsOk body, tr') ->
  (available r = true <-> ~ In (Some (port r)) (usedPorts body)).
Proof.
  intros Hc Hp. apply api_check_ok in Hc as (_ & _ & Ha & Hn & Hs).
  apply api_ports_ok in Hp as (_ & _ & Hu & _). rewrite Hu, Ha.
  destruct (usedBy r) as [v|] eqn:Eu; simpl.
  - split; [discriminate|]. intros Hnot. exfalso.
    destruct (Hs v eq_refl) as (pre & cd & post & n & rest & bpre & bnd & bpost &
                                Hl & _ & _ & Hb & _ & Hhp & _).
    apply Hnot. exists cd. split.
    + rewrite Hl. apply in_or_app. right; left; reflexivity.
    + rewrite Hb, map_app, in_app_iff. right; left; exact Hhp.
  - split; [|reflexivity]. intros _ (cd & Hcd & Hin). exact (Hn eq_refl cd Hcd Hin).
Qed.

Lemma api_check_agrees_with_api_ports_witness :
  exists r tr body tr',
    api_check "5433" spec_snapshot = (CheckOk r, tr) /\
    api_ports spec_snapshot = (PortsOk body, tr') /\
    (available r = true <-> ~ In (Some (port r)) (usedPorts body)).
Proof.
  do 4 eexists. split; [vm_compute; reflexivity|]. split; [vm_compute; reflexivity|].
  apply (api_check_agrees_with_api_ports "5433" spec_snapshot _
           [ListContainersCall; InspectCall "aaaaaaaaaaaaaaaa"; InspectCall "bbbbbbbbbbbbbbbb"] _
           [ListContainersCall; InspectCall "aaaaaaaaaaaaaaaa"; InspectCall "bbbbbbbbbbbbbbbb";
            InspectCall "cccccccccccccccc"]); vm_compute; reflexivity.
Defined.

(** The inventory answers 500 exactly when it fails, and it fails
    exactly when the daemon cannot be reached to list the containers, or
    a listed container is unknown to the daemon, or publishes a port but
    has no name. *)
Theorem api_ports_failed_iff snap :
  (fst (render_ports (fst (api_ports snap))) = 500%Z <->
   fst (api_ports snap) = PortsFailed) /\
  (fst (api_ports snap) = PortsFailed <->
   reachable snap = false \/
   exists cd, In cd (listing snap) /\
     (lookup_inspect (Id cd) (inspections snap) = None \/
      (container_bindings snap cd <> [] /\ Names cd = []))).
Proof.
  split; [|rewrite api_ports_fst; apply ports_body_fail_iff].
  destruct (fst (api_ports snap)); simpl; split; congruence.
Qed.

(** A successful inventory lists the containers once, then inspects each
    of them once, in listing order. *)
Theorem api_ports_trace snap body tr :
  api_ports snap = (PortsOk body, tr) ->
  tr = ListContainersCall :: map (fun cd => InspectCall (Id cd)) (listing snap).
Proof.
  unfold api_ports. destruct (ports_body snap) as [[b0|] t] eqn:E; intros H; inversion H; subst.
  unfold ports_body in E. inv_bind E as cs Hm Hk. apply listContainers_ok in Hm as (-> & -> & _). inv_bind Hk as a Hc Hk. apply collect_inventory_trace in Hc.
  unfold ret in Hk. injection Hk as _ <-. subst. simpl. rewrite app_nil_r. reflexivity.
Qed.

Lemma api_ports_trace_witness :
  exists body tr, api_ports spec_snapshot = (PortsOk body, tr) /\
    tr = ListContainersCall :: map (fun cd => InspectCall (Id cd)) (listing spec_snapshot).
Proof.
  do 2 eexists. split; [vm_compute; reflexivity|].
  eapply (api_ports_trace spec_snapshot). reflexivity.
Defined.

(** Each record's [id] is the short id: the first 12 characters of the
    [Id] of a listed container (all of it when shorter). *)
Theorem api_ports_short_id snap body tr c :
  api_ports snap = (PortsOk body, tr) -> In c (containers body) ->
  exists cd, In cd (listing snap) /\
    String.prefix (id c) (Id cd) = true /\
    String.length (id c) = Nat.min 12 (String.length (Id cd)).
Proof.
  intros H Hc. apply api_ports_ok in H as (Hi & _). rewrite Hi in Hc.
  apply in_flat_map in Hc as (cd & Hcd & Hc). exists cd. split; [exact Hcd|].
  unfold contributed_record in Hc.
  destruct (container_bindings snap cd); [destruct Hc|].
  destruct (Names cd); [destruct Hc|]. destruct Hc as [<-|[]]. simpl.
  split; [apply substring_0_prefix|apply substring_0_length].
Qed.

Lemma api_ports_short_id_witness :
  exists body tr c, api_ports spec_snapshot = (PortsOk body, tr) /\ In c (containers body) /\
  exists cd, In cd (listing spec_snapshot) /\
    String.prefix (id c) (Id cd) = true /\
    String.length (id c) = Nat.min 12 (String.length (Id cd)).
Proof.
  do 3 eexists. split; [vm_compute; reflexivity|]. split; [simpl; left; reflexivity|].
  eapply (api_ports_short_id spec_snapshot); [reflexivity|simpl; left; reflexivity].
Defined.

(** Every binding of the inventory carries the [HostIp] the daemon
    reported for it, or ["0.0.0.0"] in place of a missing or empty one;
    so its [hostIp] is never empty. *)
Theorem api_ports_hostIp_default snap body tr c pb :
  api_ports snap = (PortsOk body, tr) -> In c (containers body) -> In pb (ports c) ->
  exists cd ins table bs rb,
    In cd (listing snap) /\ In c (contributed_record snap cd) /\
    lookup_inspect (Id cd) (inspections snap) = Some ins /\
    Ports ins = Some table /\ In (containerPort pb, Some bs) table /\ In rb bs /\
    hostPort pb = parseInt (HostPort rb) /\
    ((HostIp rb = None \/ HostIp rb = Some "") -> hostIp pb = "0.0.0.0") /\
    (forall a, HostIp rb = Some a -> a <> "" -> hostIp pb = a) /\
    hostIp pb <> "".
Proof.
  intros H Hc Hpb.
  destruct (api_ports_record_source _ _ _ _ _ H Hc Hpb) as (cd & ins & Hcd & Hcr & Hl & Hin).
  apply container_ports_parse in Hin as (table & cport & bs & rb & Ht & Htab & Hrb & ->).
  exists cd, ins, table, bs, rb. simpl.
  do 7 (split; [assumption || reflexivity|]).
  split; [intros [E|E]; rewrite E; reflexivity|].
  split; [intros a E Ha; rewrite E; destruct a; [congruence|reflexivity]|].
  unfold host_ip_or_default. destruct (HostIp rb) as [[|a ip]|]; discriminate.
Qed.

Lemma api_ports_hostIp_default_witness :
  exists body tr c pb, api_ports default_ip_snapshot = (PortsOk body, tr) /\
    In c (containers body) /\ In pb (ports c) /\ hostIp pb = "0.0.0.0" /\
    exists cd ins table bs rb,
      In cd (listing default_ip_snapshot) /\ In c (contributed_record default_ip_snapshot cd) /\
      lookup_inspect (Id cd) (inspections default_ip_snapshot) = Some ins /\
      Ports ins = Some table /\ In (containerPort pb, Some bs) table /\ In rb bs /\
      hostPort pb = parseInt (HostPort rb) /\
      ((HostIp rb = None \/ HostIp rb = Some "") -> hostIp pb = "0.0.0.0") /\
      (forall a, HostIp rb = Some a -> a <> "" -> hostIp pb = a) /\
      hostIp pb <> "".
Proof.
  do 4 eexists. split; [vm_compute; reflexivity|]. split; [simpl; left; reflexivity|].
  split; [simpl; left; reflexivity|]. split; [reflexivity|].
  eapply (api_ports_hostIp_default default_ip_snapshot);
    [reflexivity|simpl; left; reflexivity|simpl; left; reflexivity].
Defined.

(** The random endpoint answers 500 "Failed to get random port" exactly
    when the daemon cannot be reached to list the containers or a listed
    container is unknown to the daemon. *)
Theorem api_random_failed_iff req rnd snap :
  fst (api_random req rnd snap) = RandomFailed <->
  reachable snap = false \/
  exists cd, In cd (listing snap) /\ lookup_inspect (Id cd) (inspections snap) = None.
Proof.
  rewrite <- (random_body_fail_iff rnd snap). unfold api_random.
  destruct (random_body rnd snap) as [[resp|] t] eqn:E; simpl; [|tauto].
  split; [|discriminate]. intros ->.
  unfold random_body in E. inv_bind E as cs Hm Hk. inv_bind Hk as used Hu Hk.
  destruct (draw_loop used rnd) as [rp att].
  destruct (Nat.leb maxAttempts att); unfold ret in Hk; discriminate.
Qed.

(** Unless it fails, the random endpoint lists the containers once and
    inspects each of them once, in listing order. *)
Theorem api_random_trace req rnd snap resp tr :
  api_random req rnd snap = (resp, tr) -> resp <> RandomFailed ->
  tr = ListContainersCall :: map (fun cd => InspectCall (Id cd)) (listing snap).
Proof.
  unfold api_random. intros H Hr.
  destruct (random_body rnd snap) as [r t] eqn:E. injection H as Hresp <-.
  assert (Hs : snd (random_body rnd snap) = t) by (rewrite E; reflexivity).
  rewrite <- Hs. apply random_body_ok. rewrite E. simpl.
  destruct r; [discriminate|]. subst resp. contradiction.
Qed.

Lemma api_random_trace_witness :
  api_random empty_request zero_random spec_snapshot = (RandomOk 3000, 
    [ListContainersCall; InspectCall "aaaaaaaaaaaaaaaa"; InspectCall "bbbbbbbbbbbbbbbb";
     InspectCall "cccccccccccccccc"]) /\
  RandomOk 3000 <> RandomFailed /\
  [ListContainersCall; InspectCall "aaaaaaaaaaaaaaaa"; InspectCall "bbbbbbbbbbbbbbbb";
   InspectCall "cccccccccccccccc"] =
    ListContainersCall :: map (fun cd => InspectCall (Id cd)) (listing spec_snapshot).
Proof.
  split; [vm_compute; reflexivity|]. split; [discriminate|].
  apply (api_random_trace empty_request zero_random spec_snapshot (RandomOk 3000));
    [vm_compute; reflexivity|discriminate].
Defined.

(** When every listed container is known and publishes no port, the
    random endpoint returns its first draw, unless the daemon cannot be
    reached to list the containers. *)
Theorem api_random_first_draw_when_nothing_published req rnd snap :
  (forall cd, In cd (listing snap) ->
     lookup_inspect (Id cd) (inspections snap) <> None /\ container_bindings snap cd = []) ->
  api_random req rnd snap =
    if reachable snap then
      (RandomOk (draw rnd 0), ListContainersCall :: map (fun cd => InspectCall (Id cd)) (listing snap))
    else (RandomFailed, [ListContainersCall]).
Proof.
  intros H. unfold api_random, random_body.
  destruct (reachable snap) eqn:Er;
    [|unfold bind, listContainers; rewrite Er; reflexivity].
  destruct (collect_used (listing snap) [] snap) as [[u|] t] eqn:Ec.
  - assert (Hu : u = []).
    { destruct u as [|x u]; [reflexivity|]. exfalso.
      destruct (proj1 (collect_used_ok _ _ _ _ _ Ec x) (or_introl eq_refl))
        as [[]|(cd & Hcd & Hx)].
      rewrite (proj2 (H cd Hcd)) in Hx. destruct Hx. }
    subst u. pose proof (collect_used_trace _ _ _ _ _ Ec) as Ht. subst t.
    unfold bind, ret, listContainers. rewrite Er. cbv beta iota. rewrite Ec. simpl.
    rewrite app_nil_r. reflexivity.
  - exfalso. assert (Hf : fst (collect_used (listing snap) [] snap) = None) by (rewrite Ec; reflexivity).
    apply collect_used_fail_iff in Hf as (cd & Hcd & Hl). exact (proj1 (H cd Hcd) Hl).
Qed.

Lemma api_random_first_draw_when_nothing_published_witness :
  api_random empty_request last_draw_free
    (mkSnapshot [mkContainerData "cccccccccccccccc" ["/idle"] "redis" "Up 1 hour"]
       [("cccccccccccccccc", mkInspect (Some [("80/tcp", None); ("6379/tcp", Some [])]))]
       true) =
  (RandomOk (draw last_draw_free 0),
   [ListContainersCall; InspectCall "cccccccccccccccc"]).
Proof.
  apply (api_random_first_draw_when_nothing_published empty_request last_draw_free).
  intros cd [<-|[]]. split; [discriminate|reflexivity].
Defined.

(** [checkPort] does nothing on a blank search term; it shows its local
    "invalid" result exactly on the trimmed terms the server would answer
    400 for (with no call to the daemon), and fetches the check
    otherwise. *)
Theorem checkPort_local_validation base s snap :
  match checkPort base s with
  | NoAction => js_trim s = ""
  | SetPortCheck pn a u =>
      js_trim s <> "" /\ pn = parseInt (js_trim s) /\ a = false /\
      api_check (js_trim s) snap = (CheckInvalid, [])
  | FetchCheck _ => js_trim s <> "" /\ fst (api_check (js_trim s) snap) <> CheckInvalid
  end.
Proof.
  unfold checkPort. destruct (js_trim s) as [|c rest] eqn:Et; [reflexivity|].
  destruct (parseInt (String c rest)) as [p|] eqn:Ep.
  - destruct (invalid_port (Some p)) eqn:Ev.
    + split; [discriminate|]. split; [reflexivity|]. split; [reflexivity|].
      apply api_check_invalid. rewrite Ep. exact Ev.
    + split; [discriminate|]. apply api_check_not_invalid. rewrite Ep. exact Ev.
  - split; [discriminate|]. split; [reflexivity|]. split; [reflexivity|].
    apply api_check_invalid. rewrite Ep. reflexivity.
Qed.

(** When [checkPort] fetches, the port is written in decimal into the URL,
    and the server parses that route parameter back to the same port: it
    never answers 400 to it, and a 200 answer is about that port. *)
Theorem checkPort_request_round_trip base s url :
  checkPort base s = FetchCheck url ->
  exists p, parseInt (js_trim s) = Some p /\ (1 <= p <= 65535)%Z /\
    url = String.append base
            (String.append "/api/ports/" (String.append (number_to_string p) "/check")) /\
    forall snap,
      fst (api_check (number_to_string p) snap) <> CheckInvalid /\
      forall r tr, api_check (number_to_string p) snap = (CheckOk r, tr) -> port r = p.
Proof.
  unfold checkPort. destruct (js_trim s) as [|c rest] eqn:Et; [discriminate|].
  destruct (parseInt (String c rest)) as [p|] eqn:Ep; [|discriminate].
  destruct (invalid_port (Some p)) eqn:Ev; [discriminate|].
  intros H; injection H as <-. exists p. split; [reflexivity|].
  assert (Hr : (1 <= p <= 65535)%Z).
  { simpl in Ev. apply orb_false_iff in Ev as [E1 E2]. apply Z.ltb_ge in E1, E2. lia. }
  split; [exact Hr|].
  split; [reflexivity|]. intros snap. split.
  - apply api_check_not_invalid. rewrite parseInt_number_to_string by lia. exact Ev.
  - intros r tr Hc. apply api_check_ok in Hc as (Hp & _).
    rewrite parseInt_number_to_string in Hp by lia. congruence.
Qed.

Lemma checkPort_request_round_trip_witness :
  checkPort "" " 08080abc " = FetchCheck "/api/ports/8080/check" /\
  exists p, parseInt (js_trim " 08080abc ") = Some p /\ (1 <= p <= 65535)%Z /\
    "/api/ports/8080/check" = String.append ""
            (String.append "/api/ports/" (String.append (number_to_string p) "/check")) /\
    forall snap,
      fst (api_check (number_to_string p) snap) <> CheckInvalid /\
      forall r tr, api_check (number_to_string p) snap = (CheckOk r, tr) -> port r = p.
Proof.
  split; [vm_compute; reflexivity|].
  apply (checkPort_request_round_trip "" " 08080abc "). vm_compute. reflexivity.
Defined.

(** A host port the server cannot parse reaches the client as [null] in
    [usedPorts], and [filteredPorts] then throws whatever the search term,
    the empty one included. *)
Theorem filteredPorts_throws_on_unparseable_host_port snap body tr s :
  api_ports snap = (PortsOk body, tr) ->
  (exists cd, In cd (listing snap) /\ In NaN (map hostPort (container_bindings snap cd))) ->
  filteredPorts (usedPorts body) s = None.
Proof.
  intros H Hx. apply api_ports_ok in H as (_ & _ & Hu & _).
  apply filteredPorts_null. apply Hu. exact Hx.
Qed.

Lemma filteredPorts_throws_on_unparseable_host_port_witness :
  exists body tr, api_ports nan_snapshot = (PortsOk body, tr) /\
    (exists cd, In cd (listing nan_snapshot) /\
       In NaN (map hostPort (container_bindings nan_snapshot cd))) /\
    filteredPorts (usedPorts body) "" = None.
Proof.
  do 2 eexists. split; [vm_compute; reflexivity|].
  assert (Hx : exists cd, In cd (listing nan_snapshot) /\
                 In NaN (map hostPort (container_bindings nan_snapshot cd))).
  { eexists. split; [left; reflexivity|]. vm_compute. left; reflexivity. }
  split; [exact Hx|].
  eapply (filteredPorts_throws_on_unparseable_host_port nan_snapshot); [reflexivity|exact Hx].
Defined.

(** With an empty search term [filteredContainers] keeps every container,
    even one with a [null] host port: the name test is true first. *)
Theorem filteredContainers_empty_search cs : filteredContainers cs "" = Some cs.
Proof.
  apply js_filter_all. intros c _. unfold container_matches.
  change (to_lower "") with "". rewrite includes_empty. reflexivity.
Qed.

(** The server's container records have no [state] property, so every
    badge is yellow and reads the first word of the status. *)
Theorem badge_of_server_container c :
  badge_color (render_container c) = Yellow /\
  badge_text (render_container c) = Some (first_word (status c)).
Proof.
  unfold badge_color, badge_text.
  destruct (json_field_render_container c) as [-> ->]. split; reflexivity.
Qed.
